(** * Transcript pipeline: segmentation, field normalisation and PII masking

    A shallow embedding of the text-processing core of the test-case
    generator: [src/transcript_parser.py] (class [TranscriptParser]),
    [src/data_cleaner.py] (class [DataCleaner]) and [src/pii_masker.py]
    (class [PIIMasker]).

    Text is a [string] of 8-bit characters read as code points.  The
    character classes, case mappings and whitespace set are those of Python
    3 on the ASCII range, which is the range the program's patterns and
    keywords are written in; a code point above 127 is kept as an inert
    character (no case, not a word character, not a space). *)

From Stdlib Require Import NArith ZArith Ascii String List Bool Lia DecimalString DecimalNat.
From stdpp Require Import base option gmap strings list fin_maps.

Open Scope string_scope.

(** ** Characters *)

Module Char.

Definition code (c : ascii) : N := N_of_ascii c.

Definition between (lo hi : N) (c : ascii) : bool :=
  (N.leb lo (code c) && N.leb (code c) hi)%bool.

Definition is_digit : ascii -> bool := between 48 57.
Definition is_upper : ascii -> bool := between 65 90.
Definition is_lower : ascii -> bool := between 97 122.
Definition is_alpha (c : ascii) : bool := (is_upper c || is_lower c)%bool.

(** [\w] on ASCII: letters, digits and the underscore. *)
Definition is_word (c : ascii) : bool :=
  (is_alpha c || is_digit c || N.eqb (code c) 95)%bool.

(** [str.isspace] on ASCII: TAB..CR, FS..US and the space. *)
Definition is_space (c : ascii) : bool :=
  (between 9 13 c || between 28 32 c)%bool.

Definition lower (c : ascii) : ascii :=
  if is_upper c then ascii_of_N (code c + 32) else c.

Definition upper (c : ascii) : ascii :=
  if is_lower c then ascii_of_N (code c - 32) else c.

Definition eqb (a b : ascii) : bool := N.eqb (code a) (code b).

End Char.

(** ** Python string methods *)

Module Str.

Fixpoint map (f : ascii -> ascii) (s : string) : string :=
  match s with
  | EmptyString => EmptyString
  | String c s' => String (f c) (map f s')
  end.

(** [str.lower] and [str.upper]. *)
Definition lower : string -> string := map Char.lower.
Definition upper : string -> string := map Char.upper.

(** [str.lstrip], [str.rstrip] and [str.strip] with no argument. *)
Fixpoint lstrip (s : string) : string :=
  match s with
  | String c s' => if Char.is_space c then lstrip s' else s
  | EmptyString => EmptyString
  end.

Fixpoint rstrip (s : string) : string :=
  match s with
  | EmptyString => EmptyString
  | String c s' =>
      match rstrip s' with
      | EmptyString => if Char.is_space c then EmptyString else String c EmptyString
      | t => String c t
      end
  end.

Definition strip (s : string) : string := rstrip (lstrip s).

(** [str.title]: the first letter of every run of letters is put in upper
    case, the others in lower case. *)
Fixpoint title_from (prev_cased : bool) (s : string) : string :=
  match s with
  | EmptyString => EmptyString
  | String c s' =>
      if Char.is_lower c then
        String (if prev_cased then c else Char.upper c) (title_from true s')
      else if Char.is_upper c then
        String (if prev_cased then Char.lower c else c) (title_from true s')
      else String c (title_from false s')
  end.

Definition title : string -> string := title_from false.

(** [p in s] on strings. *)
Fixpoint starts_with (p s : string) : bool :=
  match p, s with
  | EmptyString, _ => true
  | String a p', String b s' => (Char.eqb a b && starts_with p' s')%bool
  | String _ _, EmptyString => false
  end.

Fixpoint contains (p s : string) : bool :=
  (starts_with p s ||
   match s with
   | EmptyString => false
   | String _ s' => contains p s'
   end)%bool.

(** Truth value of a string: [not s] is [is_empty s]. *)
Definition is_empty (s : string) : bool :=
  match s with EmptyString => true | _ => false end.

Fixpoint take (n : nat) (s : string) : string :=
  match n, s with
  | S n', String c s' => String c (take n' s')
  | _, _ => EmptyString
  end.

Fixpoint drop (n : nat) (s : string) : string :=
  match n, s with
  | S n', String _ s' => drop n' s'
  | _, _ => s
  end.

(** The slice [s[i:i+n]]. *)
Definition slice (i n : nat) (s : string) : string := take n (drop i s).

Fixpoint replicate (n : nat) (c : ascii) : string :=
  match n with
  | O => EmptyString
  | S n' => String c (replicate n' c)
  end.

End Str.

(** ** The fragment of Python's [re] the program uses

    Patterns are kept as syntax trees.  Matching is the backtracking search
    of [re]: alternatives left to right, greedy repetition longest first,
    the first success wins.  Every repetition in the program's patterns is
    over a single-character atom, or is an optional group. *)

Module Re.

Inductive citem : Type :=
| CChar (c : ascii)
| CRange (lo hi : ascii)
| CDigit
| CWord
| CSpace.

Inductive atom : Type :=
| AAny                                  (* [.] without DOTALL *)
| ASet (negated : bool) (items : list citem).

Inductive regex : Type :=
| Eps
| Chr (a : atom)
| Lit (s : string)                      (* a run of literal characters *)
| Cat (r1 r2 : regex)
| Alt (r1 r2 : regex)
| Rep (a : atom) (min : nat) (max : option nat)   (* greedy a{min,max} *)
| Opt (r : regex)                       (* greedy (r)? *)
| WordB                                 (* \b *)
| EndS                                  (* $ without MULTILINE *)
| Ahead (r : regex)                     (* (?=r) *)
| Group (g : nat) (r : regex).          (* capturing group number g *)

Definition citem_has (i : citem) (c : ascii) : bool :=
  match i with
  | CChar d => Char.eqb c d
  | CRange lo hi => Char.between (Char.code lo) (Char.code hi) c
  | CDigit => Char.is_digit c
  | CWord => Char.is_word c
  | CSpace => Char.is_space c
  end.

(** Under IGNORECASE a character is tried as it is and in both cases. *)
Definition citem_matches (ic : bool) (i : citem) (c : ascii) : bool :=
  (citem_has i c ||
   (ic && (citem_has i (Char.lower c) || citem_has i (Char.upper c))))%bool.

Definition atom_matches (ic : bool) (a : atom) (c : ascii) : bool :=
  match a with
  | AAny => negb (Char.eqb c "010"%char)
  | ASet negated items => xorb negated (existsb (fun i => citem_matches ic i c) items)
  end.

Definition lit_matches (ic : bool) (d c : ascii) : bool :=
  if ic then Char.eqb (Char.lower c) (Char.lower d) else Char.eqb c d.

(** The matcher's position: the character before it, the text after it,
    the number of characters consumed since the match began, and the
    spans (offset, length) of the groups closed so far. *)
Record state : Type := State {
  prev : option ascii;
  rest : string;
  used : nat;
  caps : list (nat * (nat * nat))
}.

Definition result : Type := (nat * list (nat * (nat * nat)))%type.

Definition word_before (st : state) : bool :=
  match prev st with Some c => Char.is_word c | None => false end.

Definition word_after (st : state) : bool :=
  match rest st with String c _ => Char.is_word c | EmptyString => false end.

Definition at_end (st : state) : bool :=
  match rest st with
  | EmptyString => true
  | String c EmptyString => Char.eqb c "010"%char
  | _ => false
  end.

Definition first_of (x : option result) (y : option result) : option result :=
  match x with Some _ => x | None => y end.

Fixpoint m_lit (ic : bool) (p : string) (pv : option ascii) (s : string) (n : nat)
    : option (option ascii * string * nat) :=
  match p with
  | EmptyString => Some (pv, s, n)
  | String d p' =>
      match s with
      | String c s' =>
          if lit_matches ic d c then m_lit ic p' (Some c) s' (S n) else None
      | EmptyString => None
      end
  end.

(** Greedy [a{min,max}] from text [s]: take one more character when
    allowed, and fall back to stopping here when the rest fails. *)
Fixpoint m_rep (ic : bool) (a : atom) (min : nat) (max : option nat)
    (pv : option ascii) (s : string) (n : nat) (cs : list (nat * (nat * nat)))
    (k : state -> option result) {struct s} : option result :=
  let stop := match min with O => k (State pv s n cs) | S _ => None end in
  match max with
  | Some O => stop
  | _ =>
      match s with
      | String c s' =>
          if atom_matches ic a c then
            first_of (m_rep ic a (Nat.pred min) (Nat.pred <$> max) (Some c) s' (S n) cs k)
                     stop
          else stop
      | EmptyString => stop
      end
  end.

Fixpoint m (ic : bool) (r : regex) (st : state) (k : state -> option result)
    {struct r} : option result :=
  match r with
  | Eps => k st
  | Chr a =>
      match rest st with
      | String c s' =>
          if atom_matches ic a c
          then k (State (Some c) s' (S (used st)) (caps st))
          else None
      | EmptyString => None
      end
  | Lit p =>
      match m_lit ic p (prev st) (rest st) (used st) with
      | Some (pv, s, n) => k (State pv s n (caps st))
      | None => None
      end
  | Cat r1 r2 => m ic r1 st (fun st' => m ic r2 st' k)
  | Alt r1 r2 => first_of (m ic r1 st k) (m ic r2 st k)
  | Rep a min max => m_rep ic a min max (prev st) (rest st) (used st) (caps st) k
  | Opt r1 => first_of (m ic r1 st k) (k st)
  | WordB => if xorb (word_before st) (word_after st) then k st else None
  | EndS => if at_end st then k st else None
  | Ahead r1 =>
      match m ic r1 st (fun st' => Some (used st', caps st')) with
      | Some (_, cs) => k (State (prev st) (rest st) (used st) cs)
      | None => None
      end
  | Group g r1 =>
      m ic r1 st (fun st' =>
        k (State (prev st') (rest st') (used st')
                 ((g, (used st, used st' - used st)) :: caps st')))
  end.

(** A match of [r] beginning exactly at the current position: its length
    and its groups. *)
Definition match_here (ic : bool) (r : regex) (pv : option ascii) (s : string)
    : option result :=
  m ic r (State pv s 0 []) (fun st => Some (used st, caps st)).

(** [re.search]: the leftmost match, as (start, length, groups). *)
Fixpoint search_from (ic : bool) (r : regex) (pv : option ascii) (s : string) (i : nat)
    : option (nat * nat * list (nat * (nat * nat))) :=
  match match_here ic r pv s with
  | Some (n, cs) => Some (i, n, cs)
  | None =>
      match s with
      | String c s' => search_from ic r (Some c) s' (S i)
      | EmptyString => None
      end
  end.

Definition search (ic : bool) (r : regex) (s : string) := search_from ic r None s 0.

Definition matches (ic : bool) (r : regex) (s : string) : bool :=
  match search ic r s with Some _ => true | None => false end.

(** [match.group(0)] and [match.group(g)] of a search result. *)
Definition group0 (s : string) (mt : nat * nat * list (nat * (nat * nat))) : string :=
  let '(i, n, _) := mt in Str.slice i n s.

Fixpoint lookup_cap (g : nat) (cs : list (nat * (nat * nat))) : option (nat * nat) :=
  match cs with
  | [] => None
  | (h, span) :: cs' => if Nat.eqb h g then Some span else lookup_cap g cs'
  end.

Definition group (g : nat) (s : string) (mt : nat * nat * list (nat * (nat * nat)))
    : string :=
  let '(i, _, cs) := mt in
  match lookup_cap g cs with
  | Some (o, n) => Str.slice (i + o) n s
  | None => EmptyString
  end.

(** The scans below walk the text once.  [skip] counts the characters of
    the match in progress that are still to be passed over; at [skip = 0]
    a match is tried at the current position.  An empty match is
    reported and the scan moves on by one character. *)

(** [len(re.findall(r, s))]. *)
Fixpoint count_from (ic : bool) (r : regex) (pv : option ascii) (s : string) (skip : nat)
    : nat :=
  match skip with
  | S j =>
      match s with
      | String c s' => count_from ic r (Some c) s' j
      | EmptyString => 0
      end
  | O =>
      match match_here ic r pv s with
      | Some (n, _) =>
          S (match s with
             | String c s' => count_from ic r (Some c) s' (Nat.pred n)
             | EmptyString => 0
             end)
      | None =>
          match s with
          | String c s' => count_from ic r (Some c) s' 0
          | EmptyString => 0
          end
      end
  end.

Definition findall_count (ic : bool) (r : regex) (s : string) : nat :=
  count_from ic r None s 0.

(** [re.sub(r, repl, s)] for a replacement without group references. *)
Fixpoint sub_from (ic : bool) (r : regex) (repl : string)
    (pv : option ascii) (s : string) (skip : nat) : string :=
  match skip with
  | S j =>
      match s with
      | String c s' => sub_from ic r repl (Some c) s' j
      | EmptyString => EmptyString
      end
  | O =>
      match match_here ic r pv s with
      | Some (O, _) =>
          repl ++
          match s with
          | String c s' => String c (sub_from ic r repl (Some c) s' 0)
          | EmptyString => EmptyString
          end
      | Some (S j, _) =>
          repl ++
          match s with
          | String c s' => sub_from ic r repl (Some c) s' j
          | EmptyString => EmptyString
          end
      | None =>
          match s with
          | String c s' => String c (sub_from ic r repl (Some c) s' 0)
          | EmptyString => EmptyString
          end
      end
  end.

Definition sub (ic : bool) (r : regex) (repl : string) (s : string) : string :=
  sub_from ic r repl None s 0.

(** [re.split(r, s)] for a pattern without groups.  [cur] is the piece
    being collected, in reverse. *)
Definition close_piece (cur : list ascii) : string :=
  string_of_list_ascii (rev cur).

Fixpoint split_from (ic : bool) (r : regex) (pv : option ascii) (s : string)
    (skip : nat) (cur : list ascii) : list string :=
  match skip with
  | S j =>
      match s with
      | String c s' => split_from ic r (Some c) s' j cur
      | EmptyString => [close_piece cur]
      end
  | O =>
      match match_here ic r pv s with
      | Some (O, _) =>
          close_piece cur ::
          match s with
          | String c s' => split_from ic r (Some c) s' 0 [c]
          | EmptyString => [EmptyString]
          end
      | Some (S j, _) =>
          close_piece cur ::
          match s with
          | String c s' => split_from ic r (Some c) s' j []
          | EmptyString => [EmptyString]
          end
      | None =>
          match s with
          | String c s' => split_from ic r (Some c) s' 0 (c :: cur)
          | EmptyString => [close_piece cur]
          end
      end
  end.

Definition split (ic : bool) (r : regex) (s : string) : list string :=
  split_from ic r None s 0 [].

(** Pattern-writing helpers. *)
Definition seq (rs : list regex) : regex := fold_right Cat Eps rs.
Definition alts (ps : list string) : regex :=
  match ps with
  | [] => Eps
  | p :: ps' => fold_left (fun acc q => Alt acc (Lit q)) ps' (Lit p)
  end.

Definition digit : atom := ASet false [CDigit].
Definition word : atom := ASet false [CWord].
Definition space : atom := ASet false [CSpace].
Definition chars (s : string) : list citem := List.map CChar (list_ascii_of_string s).
Definition exactly (a : atom) (n : nat) : regex := Rep a n (Some n).
Definition plus (a : atom) : regex := Rep a 1 None.
Definition star (a : atom) : regex := Rep a 0 None.

End Re.

(** ** JSON values and records

    A transcript record is a Python [dict] loaded from JSON: a finite map
    from field names to values.  A value is a string, a number, [null], an
    array or an object; [VInt] also stands for a boolean, which Python
    treats as the number 0 or 1. *)

#[warnings="-register-all"]
Inductive value : Type :=
| VStr (s : string)
| VInt (n : Z)
| VNull
| VList (items : list value)
| VObj (members : list (string * value)).

(** Python truthiness of a value. *)
Definition truthy (v : value) : bool :=
  match v with
  | VStr s => negb (Str.is_empty s)
  | VInt n => negb (Z.eqb n 0)
  | VNull => false
  | VList items => match items with [] => false | _ => true end
  | VObj members => match members with [] => false | _ => true end
  end.

(** Whether a value can be a member of a [set]: a [list] and a [dict] are
    unhashable. *)
Definition hashable (v : value) : bool :=
  match v with
  | VList _ | VObj _ => false
  | _ => true
  end.

(** The channel and category lists of the metadata that [clean_parsed_data]
    and [mask_data] build before they write:
    [set(call.get('channel', 'Unknown') for call in calls)] and
    [set(call.get('category', '') for call in calls if call.get('category'))].
    Building a set hashes every value collected; an unhashable one raises
    [TypeError]. *)
Definition metadata_hashable (calls : list (gmap string value)) : bool :=
  (forallb (fun call => hashable (default (VStr "Unknown") (call !! "channel"))) calls &&
   forallb (fun call =>
              match call !! "category" with
              | Some v => if truthy v then hashable v else true
              | None => true
              end) calls)%bool.

(** The exceptions the modelled code can raise. *)
Inductive exn : Type :=
| TypeError
| KeyError (key : string).

Definition res (A : Type) : Type := (A + exn)%type.
Definition ret {A} (x : A) : res A := inl x.
Definition raise {A} (e : exn) : res A := inr e.
Definition bind {A B} (x : res A) (f : A -> res B) : res B :=
  match x with
  | inl a => f a
  | inr e => inr e
  end.

Notation "x <- e1 ;; e2" := (bind e1 (fun x => e2))
  (at level 100, e1 at next level, right associativity).
(** ** [PIIMasker] *)

Module PIIMasker.
Import Re.

Definition d (n : nat) : regex := exactly digit n.
Definition letter_upper : atom := ASet false [CRange "A" "Z"].
Definition letter_lower : atom := ASet false [CRange "a" "z"].
Definition name_word : regex := Cat (Chr letter_upper) (plus letter_lower).

(** [self.pii_patterns], in declaration order. *)
Definition pii_patterns : list (string * list regex) :=
  [ ("phone_numbers",
     [ seq [WordB; d 3; Lit "-"; d 3; Lit "-"; d 4; WordB];
       seq [WordB; Lit "("; d 3; Lit ")"; star space; d 3; Lit "-"; d 4; WordB];
       seq [WordB; d 3; Lit "."; d 3; Lit "."; d 4; WordB];
       seq [WordB; d 10; WordB] ]);
    ("emails",
     [ seq [WordB;
            plus (ASet false ([CRange "A" "Z"; CRange "a" "z"; CRange "0" "9"] ++ chars "._%+-"));
            Lit "@";
            plus (ASet false ([CRange "A" "Z"; CRange "a" "z"; CRange "0" "9"] ++ chars ".-"));
            Lit ".";
            Rep (ASet false [CRange "A" "Z"; CChar "|"; CRange "a" "z"]) 2 None;
            WordB] ]);
    ("account_numbers",
     [ seq [WordB; Rep digit 10 (Some 15); WordB];
       seq [WordB; Rep (ASet false [CRange "A" "Z"; CRange "0" "9"]) 8 (Some 12); WordB] ]);
    ("imei_numbers",
     [ seq [WordB; d 15; WordB] ]);
    ("credit_cards",
     [ seq [WordB; d 4; Rep (ASet false [CSpace; CChar "-"]) 0 (Some 1);
            d 4; Rep (ASet false [CSpace; CChar "-"]) 0 (Some 1);
            d 4; Rep (ASet false [CSpace; CChar "-"]) 0 (Some 1);
            d 4; WordB] ]);
    ("ssn",
     [ seq [WordB; d 3; Lit "-"; d 2; Lit "-"; d 4; WordB] ]);
    ("names",
     [ seq [WordB; alts ["Agent"; "Customer"]; Lit ":"; star space;
            name_word; plus space; name_word; WordB];
       seq [WordB; name_word; plus space; name_word;
            Ahead (Cat (plus space) (alts ["said"; "called"; "from"])); WordB] ]);
    ("addresses",
     [ seq [WordB; plus digit; plus space;
            plus (ASet false [CRange "A" "Z"; CRange "a" "z"; CRange "0" "9"; CSpace]);
            alts ["Street"; "St"; "Avenue"; "Ave"; "Road"; "Rd"; "Drive"; "Dr";
                  "Lane"; "Ln"; "Boulevard"; "Blvd"; "Way"; "Place"; "Pl"];
            WordB];
       seq [WordB; d 5; Opt (Cat (Lit "-") (d 4)); WordB] ]) ].

(** [self.replacements]. *)
Definition replacements : gmap string string :=
  list_to_map
    [ ("phone_numbers", "[PHONE_NUMBER]");
      ("emails", "[EMAIL_ADDRESS]");
      ("account_numbers", "[ACCOUNT_NUMBER]");
      ("imei_numbers", "[DEVICE_ID]");
      ("credit_cards", "[CREDIT_CARD]");
      ("ssn", "[SSN]");
      ("names", "[CUSTOMER_NAME]");
      ("addresses", "[ADDRESS]") ].

(** [{pii_type: 0 for pii_type in self.pii_patterns.keys()}]. *)
Definition zero_counts : gmap string nat :=
  list_to_map (List.map (fun e => (fst e, 0)) pii_patterns).

(** [counts[k] += n]. *)
Definition add_count (k : string) (n : nat) (counts : gmap string nat) : gmap string nat :=
  <[k := counts !!! k + n]> counts.

(** [telecom_patterns] of [_mask_telecom_specific], in declaration order. *)
Definition sep_then (a : atom) : regex :=
  Cat (plus (ASet false [CChar ":"; CSpace])) (plus a).
Definition word_or_dash : atom := ASet false [CWord; CDigit; CChar "-"].

Definition telecom_patterns : list (regex * string) :=
  [ (seq [WordB; Group 1 (alts ["SIM"; "sim"]); star space;
          Opt (Group 2 (Cat (Lit "card") (star space)));
          Lit "number"; sep_then (ASet false [CWord; CDigit])],
     "[SIM_NUMBER]");
    (seq [WordB; Lit "activation"; star space; Lit "code";
          sep_then (ASet false [CWord; CDigit])],
     "[ACTIVATION_CODE]");
    (seq [WordB; Lit "port"; star space; Lit "request"; sep_then word_or_dash],
     "[PORT_REQUEST_ID]");
    (seq [WordB; Lit "trade-in"; star space; Lit "reference"; sep_then word_or_dash],
     "[TRADE_IN_ID]");
    (seq [WordB; Lit "order"; star space; Lit "confirmation"; sep_then word_or_dash],
     "[ORDER_ID]");
    (seq [WordB; Lit "billing"; star space; Lit "address";
          sep_then (ASet true [CChar "."]); Lit "."],
     "[BILLING_ADDRESS].");
    (seq [WordB; Lit "ZIP"; star space; Lit "code";
          plus (ASet false [CChar ":"; CSpace]); d 5],
     "[ZIP_CODE]") ].

Definition _mask_telecom_specific (text : string) : string :=
  fold_left (fun masked_text e => sub true (fst e) (snd e) masked_text)
            telecom_patterns text.

(** One pattern of one category: count its matches, then replace them. *)
Definition apply_pattern (pii_type replacement : string)
    (acc : string * gmap string nat) (pattern : regex) : string * gmap string nat :=
  let '(masked_text, pii_counts) := acc in
  (sub true pattern replacement masked_text,
   add_count pii_type (findall_count true pattern masked_text) pii_counts).

Definition apply_category (acc : string * gmap string nat)
    (e : string * list regex) : string * gmap string nat :=
  fold_left (apply_pattern (fst e) (replacements !!! fst e)) (snd e) acc.

(** The body of [_mask_text] for a non-empty string: the category table
    in order, then the telecom pass. *)
Definition mask_body (text : string) : string * gmap string nat :=
  let '(masked_text, pii_counts) :=
    fold_left apply_category pii_patterns (text, zero_counts) in
  (_mask_telecom_specific masked_text, pii_counts).

(** [_mask_text].  A falsy argument is returned as it is; [re.findall] on
    a value that is not a string raises [TypeError]. *)
Definition _mask_text (text : value) : res (value * gmap string nat) :=
  if negb (truthy text) then ret (text, zero_counts)
  else
    match text with
    | VStr s => let '(masked_text, pii_counts) := mask_body s in
                ret (VStr masked_text, pii_counts)
    | _ => raise TypeError
    end.

(** [_mask_text] on a string: the masked text and the tally. *)
Definition mask_str (text : string) : string * gmap string nat :=
  if Str.is_empty text then (text, zero_counts) else mask_body text.

(** [for pii_type, count in found.items(): totals[pii_type] += count]. *)
Definition add_counts (totals found : gmap string nat) : gmap string nat :=
  map_fold add_count totals found.

Definition fields_to_mask : list string :=
  ["transcript"; "resolution"; "impact"; "root_cause"].

(** One turn of the loop over [fields_to_mask]. *)
Definition mask_field (acc : gmap string value * gmap string nat) (field : string)
    : res (gmap string value * gmap string nat) :=
  let '(masked, pii_found) := acc in
  match masked !! field with
  | Some original_text =>
      if truthy original_text then
        r <- _mask_text original_text ;;
        ret (<[field := fst r]> masked, add_counts pii_found (snd r))
      else ret acc
  | None => ret acc
  end.

Fixpoint mask_fields (fields : list string) (acc : gmap string value * gmap string nat)
    : res (gmap string value * gmap string nat) :=
  match fields with
  | [] => ret acc
  | field :: fields' => acc' <- mask_field acc field ;; mask_fields fields' acc'
  end.

(** [_mask_single_transcript]. *)
Definition _mask_single_transcript (transcript : gmap string value)
    : res (gmap string value * gmap string nat) :=
  acc <- mask_fields fields_to_mask (transcript, zero_counts) ;;
  let '(masked, pii_found) := acc in
  match masked !! "call_id" with
  | Some call_id =>
      r <- _mask_text call_id ;;
      ret (<["call_id" := fst r]> masked, pii_found)
  | None => ret (masked, pii_found)
  end.

(** What [mask_data] writes to the output file: the metadata entries
    [total_transcripts] and [pii_removed], and the masked records.  The
    entries [masked_at], [channels] and [categories] of the metadata are
    not kept here. *)
Record masked_file : Type := MaskedFile {
  total_transcripts : nat;
  pii_removed : gmap string nat;
  transcripts : list (gmap string value)
}.

(** The loop of [mask_data] over the loaded records.  The progress line
    printed for each record reads [transcript['call_id']]. *)
Fixpoint mask_loop (todo : list (gmap string value))
    (masked_transcripts : list (gmap string value)) (pii_stats : gmap string nat)
    : res (list (gmap string value) * gmap string nat) :=
  match todo with
  | [] => ret (masked_transcripts, pii_stats)
  | transcript :: todo' =>
      r <- _mask_single_transcript transcript ;;
      _ <- match transcript !! "call_id" with
           | Some v => ret v
           | None => raise (KeyError "call_id")
           end ;;
      mask_loop todo' (masked_transcripts ++ [fst r]) (add_counts pii_stats (snd r))
  end.

(** [mask_data] on the records of the input file: the status it returns
    and the file it writes, if any.  The input file is a JSON object with a
    [transcripts] array of objects and a [metadata] object or none, which
    is what [clean_parsed_data] writes.  Every exception is caught by the
    one handler around the whole function, which returns [False]; the
    metadata is built and the file is written after the loop, so that an
    exception in the loop or in the metadata leaves no file. *)
Definition mask_data (input : list (gmap string value)) : bool * option masked_file :=
  match mask_loop input [] zero_counts with
  | inl (masked_transcripts, pii_stats) =>
      if metadata_hashable masked_transcripts
      then (true, Some (MaskedFile (List.length masked_transcripts) pii_stats
                                   masked_transcripts))
      else (false, None)
  | inr _ => (false, None)
  end.

(** The placeholder tokens of the category table and of the telecom pass. *)
Definition category_tokens : list string :=
  List.map (fun e => replacements !!! fst e) pii_patterns.
Definition telecom_tokens : list string := List.map snd telecom_patterns.

End PIIMasker.

(** ** [DataCleaner] *)

Module DataCleaner.
Import Re.

(** [\s*<label>.*$], used to cut what a faulty extraction appended. *)
Definition from_label (label : string) : regex :=
  seq [star space; Lit label; star AAny; EndS].

(** [\s*<word>\s*$]. *)
Definition trailing (w : string) : regex :=
  seq [star space; Lit w; star space; EndS].

Definition category_mapping : list (string * string) :=
  [ ("plan change", "Plan Change");
    ("device activation", "Device Activation");
    ("billing dispute", "Billing Dispute");
    ("device purchase", "Device Purchase");
    ("account management", "Account Management");
    ("promotional offers", "Promotional Offers");
    ("data usage tracking", "Data Usage Tracking");
    ("device upgrade", "Device Upgrade");
    ("auto-pay management", "Auto-Pay Management");
    ("auto pay management", "Auto-Pay Management");
    ("sim card activation", "SIM Card Activation");
    ("promotional pricing", "Promotional Pricing");
    ("device return", "Device Return");
    ("data usage alerts", "Data Usage Alerts");
    ("service commands", "Service Commands");
    ("balance inquiry", "Balance Inquiry") ].

(** The contamination-stripping substitutions of [_clean_category]. *)
Definition strip_category (category : string) : string :=
  let category := sub true (from_label "Severity:") "" category in
  let category := sub true (from_label "TRANSCRIPT:") "" category in
  let category := sub true (from_label "Agent:") "" category in
  let category := sub true (trailing "High") "" category in
  let category := sub true (trailing "Medium") "" category in
  let category := sub true (trailing "Low") "" category in
  category.

(** [for key, value in category_mapping.items(): if key in category_lower:
    return value], with [fallback] for the code after the loop. *)
Fixpoint lookup_mapping (mapping : list (string * string)) (category_lower : string)
    (fallback : string) : string :=
  match mapping with
  | [] => fallback
  | (key, value) :: mapping' =>
      if Str.contains key category_lower then value
      else lookup_mapping mapping' category_lower fallback
  end.

Definition _clean_category (category : string) : string :=
  if Str.is_empty category then ""
  else
    let category := strip_category category in
    let category_clean := Str.strip category in
    let category_lower := Str.lower category_clean in
    lookup_mapping category_mapping category_lower
      (if Str.is_empty category_clean then "Unknown" else category_clean).

(** The contamination-stripping substitutions of [_clean_severity]. *)
Definition strip_severity (severity : string) : string :=
  let severity := sub true (from_label "TRANSCRIPT:") "" severity in
  let severity := sub true (from_label "Agent:") "" severity in
  let severity := sub true (from_label "Category:") "" severity in
  severity.

Definition _clean_severity (severity : string) : string :=
  if Str.is_empty severity then ""
  else
    let severity := strip_severity severity in
    let severity_clean := Str.title (Str.strip severity) in
    if Str.contains "high" (Str.lower severity_clean) then "High"
    else if Str.contains "medium" (Str.lower severity_clean) then "Medium"
    else if Str.contains "low" (Str.lower severity_clean) then "Low"
    else if Str.contains "critical" (Str.lower severity_clean) then "Critical"
    else if Str.is_empty severity_clean then "Medium" else severity_clean.

End DataCleaner.

(** ** [TranscriptParser] *)

Module TranscriptParser.
Import Re.

(** [TW_\w+_\d+]. *)
Definition tw_marker : regex := seq [Lit "tw_"; plus word; Lit "_"; plus digit].

(** [potential_separators] of [_parse_text_content], in declaration
    order.  Every one is used with [flags=re.IGNORECASE]. *)
Definition potential_separators : list regex :=
  [ seq [Lit "call"; plus space; tw_marker];
    tw_marker;
    seq [Lit "section"; plus space; plus digit];
    Rep (ASet false [CChar "="]) 3 None;
    Rep (ASet false [CChar "-"]) 10 None;
    seq [Lit "transcript"; plus space; plus digit];
    seq [plus digit; Lit "."; plus space; plus word; plus space; Lit "channel"] ].

(** [[s.strip() for s in test_splits if len(s.strip()) > 300]]. *)
Definition valid_splits (test_splits : list string) : list string :=
  List.map Str.strip
    (List.filter (fun s => Nat.ltb 300 (String.length (Str.strip s))) test_splits).

(** One turn of the loop over the separators: the split replaces the best
    one so far only when it has strictly more valid pieces. *)
Definition try_separator (content : string) (calls : list string) (pattern : regex)
    : list string :=
  let test_splits := split true pattern content in
  let valid := valid_splits test_splits in
  if Nat.ltb (List.length calls) (List.length valid) then valid else calls.

(** The sections [_parse_text_content] goes on to parse. *)
Definition sections (content : string) : list string :=
  let calls := fold_left (try_separator content) potential_separators [] in
  match calls with
  | [] => [content]
  | _ => calls
  end.

(** [f"{call_number:03d}"]. *)
Definition decimal (n : nat) : string := NilEmpty.string_of_uint (Nat.to_uint n).
Definition pad3 (n : nat) : string :=
  let digits := decimal n in
  Str.replicate (3 - String.length digits) "0" ++ digits.

Definition call_id_patterns : list regex :=
  [ seq [Lit "TW_"; plus word; Lit "_"; plus digit];
    seq [Lit "Call"; plus space;
         Group 1 (seq [plus word; Lit "_"; plus word; Lit "_"; plus digit])];
    seq [Lit "ID"; plus (ASet false [CChar ":"; CSpace]);
         Group 1 (plus (ASet false [CRange "A" "Z"; CRange "0" "9"; CChar "_"]))] ].

(** The loop of [_extract_call_id] over its patterns: the first pattern
    found in the text gives the identifier. *)
Fixpoint first_call_id (patterns : list regex) (text : string) : option string :=
  match patterns with
  | [] => None
  | pattern :: patterns' =>
      match search true pattern text with
      | Some mt =>
          Some (if Str.contains "TW_" (Str.upper (group0 text mt))
                then group0 text mt
                else "TW_" ++ group 1 text mt)
      | None => first_call_id patterns' text
      end
  end.

Definition _extract_call_id (text : string) (call_number : nat) : string :=
  match first_call_id call_id_patterns text with
  | Some call_id => call_id
  | None =>
      let text_lower := Str.lower text in
      if Str.contains "tasora" text_lower then "TW_TASORA_" ++ pad3 call_number
      else if (Str.contains "web" text_lower || Str.contains "portal" text_lower)%bool
      then "TW_WEB_" ++ pad3 call_number
      else if (Str.contains "app" text_lower || Str.contains "mobile" text_lower)%bool
      then "TW_APP_" ++ pad3 call_number
      else if Str.contains "target" text_lower then "TW_TARGET_" ++ pad3 call_number
      else if (Str.contains "sms" text_lower || Str.contains "bot" text_lower)%bool
      then "TW_SMS_" ++ pad3 call_number
      else "TW_UNKNOWN_" ++ pad3 call_number
  end.

Definition _extract_channel (text call_id : string) : string :=
  let text_lower := Str.lower text in
  let call_id_upper := Str.upper call_id in
  if (Str.contains "TASORA" call_id_upper || Str.contains "tasora" text_lower)%bool
  then "TASORA"
  else if (Str.contains "WEB" call_id_upper || Str.contains "web portal" text_lower
           || Str.contains "website" text_lower)%bool
  then "Web Portal"
  else if (Str.contains "APP" call_id_upper || Str.contains "mobile app" text_lower
           || Str.contains "application" text_lower)%bool
  then "Mobile App"
  else if (Str.contains "TARGET" call_id_upper || Str.contains "target" text_lower)%bool
  then "Target"
  else if (Str.contains "SMS" call_id_upper || Str.contains "sms" text_lower
           || Str.contains "bot" text_lower || Str.contains "ivr" text_lower)%bool
  then "SMS/Bot/IVR"
  else "Unknown".

(** A label made of letters, digits, spaces and colons only.  Such a label
    holds no character that is special in a pattern, so that pasted into
    one it stands for itself.  Every label of the program is of this
    kind. *)
Definition plain_char (c : ascii) : bool :=
  (Char.is_alpha c || Char.is_digit c || Char.eqb c " " || Char.eqb c ":")%bool.

Definition plain_label (label : string) : bool :=
  forallb plain_char (list_ascii_of_string label).

(** [_extract_field] pastes the label into the pattern
    [<label>\s*([^\n]+)].  [field_regex] is that pattern for a plain
    label, which is how [_parse_single_call] calls it. *)
Definition field_regex (label : string) : regex :=
  seq [Lit label; star space; Group 1 (plus (ASet true [CChar "010"]))].

Fixpoint _extract_field (text : string) (field_patterns : list string) : string :=
  match field_patterns with
  | [] => ""
  | pattern :: field_patterns' =>
      match search true (field_regex pattern) text with
      | Some mt => Str.strip (group 1 text mt)
      | None => _extract_field text field_patterns'
      end
  end.

End TranscriptParser.

Import PIIMasker DataCleaner TranscriptParser.

(** * The rest of the parser and of the cleaner *)

(** ** Lazy repetition and line anchors

    [_extract_conversation] and [_clean_conversation] use lazy quantifiers
    and, under MULTILINE, the anchors of a line.  [ReX] adds them on top of
    [Re]: a pattern of [Re] is a pattern of [ReX], and the continuation of
    the matcher is shared. *)

Module ReX.
Import Re.

Inductive xregex : Type :=
| Base (r : regex)
| XCat (x1 x2 : xregex)
| XAlt (x1 x2 : xregex)
| XGroup (g : nat) (x : xregex)
| Lazy (a : atom) (min : nat) (max : option nat)   (* lazy a{min,max}? *)
| BeginS                                (* ^ without MULTILINE *)
| BeginL                                (* ^ with MULTILINE *)
| EndL.                                 (* $ with MULTILINE *)

(** Lazy [a{min,max}?]: stop as soon as allowed, and take one more
    character only when the rest fails. *)
Fixpoint m_lazy (ic : bool) (a : atom) (min : nat) (max : option nat)
    (pv : option ascii) (s : string) (n : nat) (cs : list (nat * (nat * nat)))
    (k : state -> option result) {struct s} : option result :=
  let more :=
    match max with
    | Some O => None
    | _ =>
        match s with
        | String c s' =>
            if atom_matches ic a c
            then m_lazy ic a (Nat.pred min) (Nat.pred <$> max) (Some c) s' (S n) cs k
            else None
        | EmptyString => None
        end
    end in
  match min with
  | O => first_of (k (State pv s n cs)) more
  | S _ => more
  end.

Definition line_start (st : state) : bool :=
  match prev st with
  | None => true
  | Some c => Char.eqb c "010"%char
  end.

Definition line_end (st : state) : bool :=
  match rest st with
  | EmptyString => true
  | String c _ => Char.eqb c "010"%char
  end.

Fixpoint mx (ic : bool) (x : xregex) (st : state) (k : state -> option result)
    {struct x} : option result :=
  match x with
  | Base r => m ic r st k
  | XCat x1 x2 => mx ic x1 st (fun st' => mx ic x2 st' k)
  | XAlt x1 x2 => first_of (mx ic x1 st k) (mx ic x2 st k)
  | XGroup g x1 =>
      mx ic x1 st (fun st' =>
        k (State (prev st') (rest st') (used st')
                 ((g, (used st, used st' - used st)) :: caps st')))
  | Lazy a min max => m_lazy ic a min max (prev st) (rest st) (used st) (caps st) k
  | BeginS => match prev st with None => k st | Some _ => None end
  | BeginL => if line_start st then k st else None
  | EndL => if line_end st then k st else None
  end.

Definition match_here (ic : bool) (x : xregex) (pv : option ascii) (s : string)
    : option result :=
  mx ic x (State pv s 0 []) (fun st => Some (used st, caps st)).

(** [re.search], as (start, length, groups). *)
Fixpoint search_from (ic : bool) (x : xregex) (pv : option ascii) (s : string) (i : nat)
    : option (nat * nat * list (nat * (nat * nat))) :=
  match match_here ic x pv s with
  | Some (n, cs) => Some (i, n, cs)
  | None =>
      match s with
      | String c s' => search_from ic x (Some c) s' (S i)
      | EmptyString => None
      end
  end.

Definition search (ic : bool) (x : xregex) (s : string) := search_from ic x None s 0.

(** The text of group [g] of a match that starts at the head of [s]. *)
Definition group_here (g : nat) (s : string) (cs : list (nat * (nat * nat))) : string :=
  match lookup_cap g cs with
  | Some (o, n) => Str.slice o n s
  | None => EmptyString
  end.

(** [re.findall] for a pattern with the single group 1: the texts of
    group 1 of the successive matches. *)
Fixpoint findall_from (ic : bool) (x : xregex) (pv : option ascii) (s : string)
    (skip : nat) : list string :=
  match skip with
  | S j =>
      match s with
      | String c s' => findall_from ic x (Some c) s' j
      | EmptyString => []
      end
  | O =>
      match match_here ic x pv s with
      | Some (n, cs) =>
          group_here 1 s cs ::
          match s with
          | String c s' => findall_from ic x (Some c) s' (Nat.pred n)
          | EmptyString => []
          end
      | None =>
          match s with
          | String c s' => findall_from ic x (Some c) s' 0
          | EmptyString => []
          end
      end
  end.

Definition findall (ic : bool) (x : xregex) (s : string) : list string :=
  findall_from ic x None s 0.

(** [re.sub] for a replacement without group references. *)
Fixpoint sub_from (ic : bool) (x : xregex) (repl : string)
    (pv : option ascii) (s : string) (skip : nat) : string :=
  match skip with
  | S j =>
      match s with
      | String c s' => sub_from ic x repl (Some c) s' j
      | EmptyString => EmptyString
      end
  | O =>
      match match_here ic x pv s with
      | Some (O, _) =>
          repl ++
          match s with
          | String c s' => String c (sub_from ic x repl (Some c) s' 0)
          | EmptyString => EmptyString
          end
      | Some (S j, _) =>
          repl ++
          match s with
          | String c s' => sub_from ic x repl (Some c) s' j
          | EmptyString => EmptyString
          end
      | None =>
          match s with
          | String c s' => String c (sub_from ic x repl (Some c) s' 0)
          | EmptyString => EmptyString
          end
      end
  end.

Definition sub (ic : bool) (x : xregex) (repl : string) (s : string) : string :=
  sub_from ic x repl None s 0.

Definition xseq (xs : list xregex) : xregex :=
  match xs with
  | [] => Base Eps
  | x :: xs' => fold_left XCat xs' x
  end.

(** [.] under DOTALL. *)
Definition any : atom := ASet true [].

End ReX.

(** ** [TranscriptParser], continued *)

Import Re ReX.

(** [(?=resolution:|impact:|root cause:|$)]. *)
Definition until_label : regex :=
  Ahead (Alt (alts ["resolution:"; "impact:"; "root cause:"]) EndS).

(** The three [conversation_patterns] of [_extract_conversation]; all are
    used with [re.DOTALL | re.IGNORECASE]. *)
Definition transcript_block : xregex :=
  XCat (Base (Lit "transcript:")) (XCat (XGroup 1 (Lazy any 1 None)) (Base until_label)).

Definition conversation_block : xregex :=
  XCat (Base (Lit "conversation:")) (XCat (XGroup 1 (Lazy any 1 None)) (Base until_label)).

Definition agent_block : xregex :=
  XCat (XGroup 1 (XCat (Base (Lit "agent:")) (Lazy any 1 None))) (Base until_label).

Definition conversation_patterns : list xregex :=
  [transcript_block; conversation_block; agent_block].

(** [^(transcript|conversation):\s*]. *)
Definition leading_label : xregex :=
  XCat BeginS (Base (seq [Group 1 (alts ["transcript"; "conversation"]); Lit ":"; star space])).

(** [(agent:.*?customer:.*?)(?=\n\s*[A-Z][A-Z]:|$)]. *)
Definition agent_customer_pattern : xregex :=
  XCat (XGroup 1 (XCat (Base (Lit "agent:"))
                 (XCat (Lazy any 0 None)
                 (XCat (Base (Lit "customer:")) (Lazy any 0 None)))))
       (Base (Ahead (Alt (seq [Lit (String "010" ""); star space;
                               Chr (ASet false [CRange "A" "Z"]);
                               Chr (ASet false [CRange "A" "Z"]); Lit ":"])
                         EndS))).

(** The loop of [_extract_conversation] over its labelled patterns. *)
Fixpoint first_conversation (patterns : list xregex) (text : string) : option string :=
  match patterns with
  | [] => None
  | pattern :: patterns' =>
      match ReX.search true pattern text with
      | Some (i, _, cs) =>
          let conversation := Str.strip (group_here 1 (Str.drop i text) cs) in
          Some (ReX.sub true leading_label "" conversation)
      | None => first_conversation patterns' text
      end
  end.

(** ['\n\n'.join(matches)]. *)
Fixpoint join (sep : string) (parts : list string) : string :=
  match parts with
  | [] => ""
  | [p] => p
  | p :: parts' => p ++ sep ++ join sep parts'
  end.

Definition _extract_conversation (text : string) : string :=
  match first_conversation conversation_patterns text with
  | Some conversation => conversation
  | None =>
      match ReX.findall true agent_customer_pattern text with
      | [] =>
          if Nat.ltb 1000 (String.length text)
          then Str.take 1000 text ++ "..."
          else text
      | matches => join (String "010" (String "010" "")) matches
      end
  end.

Definition _parse_single_call (text : string) (call_number : nat) : gmap string value :=
  let call_id := _extract_call_id text call_number in
  let channel := _extract_channel text call_id in
  let date := _extract_field text ["date:"; "timestamp:"; "time:"] in
  let category := _extract_field text ["category:"; "issue type:"; "type:"; "problem:"] in
  let severity := _extract_field text ["severity:"; "priority:"; "level:"] in
  let journey_type := _extract_field text ["journey type:"; "journey:"; "type:"] in
  let conversation := _extract_conversation text in
  let resolution := _extract_field text ["resolution:"; "solution:"; "fix:"; "resolved:"] in
  let impact := _extract_field text ["impact:"; "effect:"; "consequence:"] in
  let root_cause := _extract_field text ["root cause:"; "cause:"; "reason:"] in
  list_to_map
    [ ("call_id", VStr call_id);
      ("channel", VStr channel);
      ("date", VStr date);
      ("category", VStr category);
      ("severity", VStr severity);
      ("journey_type", VStr journey_type);
      ("transcript", VStr conversation);
      ("resolution", VStr resolution);
      ("impact", VStr impact);
      ("root_cause", VStr root_cause);
      ("raw_text_length", VInt (Z.of_nat (String.length text))) ].

(** The loop of [_parse_text_content] over [enumerate(calls)], from index
    [i] on: a section whose trimmed length is below 100 is skipped, and so
    is a section whose record is empty. *)
Fixpoint parse_calls (calls : list string) (i : nat) : list (gmap string value) :=
  match calls with
  | [] => []
  | call_text :: calls' =>
      if Nat.ltb (String.length (Str.strip call_text)) 100
      then parse_calls calls' (S i)
      else
        let parsed_call := _parse_single_call call_text (i + 1) in
        if bool_decide (parsed_call = ∅)
        then parse_calls calls' (S i)
        else parsed_call :: parse_calls calls' (S i)
  end.

Definition _parse_text_content (content : string) : list (gmap string value) :=
  parse_calls (sections content) 0.

(** [parse_pdf], from the text [_extract_pdf_text] returned. *)
Definition parse_pdf (pdf_text : string) : list (gmap string value) :=
  if Str.is_empty pdf_text then [] else _parse_text_content pdf_text.

(** ** [DataCleaner], continued *)

Definition _clean_journey_type (journey_type : string) : string :=
  if Str.is_empty journey_type then ""
  else
    let journey_clean := Str.title (Str.strip journey_type) in
    if Str.contains "tangible" (Str.lower journey_clean) then "Tangible"
    else if Str.contains "non-tangible" (Str.lower journey_clean) then "Non-tangible"
    else if Str.is_empty journey_clean then "Non-tangible" else journey_clean.

(** [date_patterns] of [_clean_date]; each is one group. *)
Definition date_patterns : list regex :=
  [ Group 1 (seq [plus word; plus space; plus digit; Lit ","; plus space; exactly digit 4]);
    Group 1 (seq [exactly digit 4; Lit "-"; exactly digit 2; Lit "-"; exactly digit 2]);
    Group 1 (seq [Rep digit 1 (Some 2); Lit "/"; Rep digit 1 (Some 2); Lit "/";
                  exactly digit 4]) ].

Fixpoint first_date (patterns : list regex) (date : string) : option string :=
  match patterns with
  | [] => None
  | pattern :: patterns' =>
      match Re.search false pattern date with
      | Some mt => Some (group 1 date mt)
      | None => first_date patterns' date
      end
  end.

Definition _clean_date (date : string) : string :=
  if Str.is_empty date then ""
  else
    match first_date date_patterns date with
    | Some found => found
    | None => Str.strip date
    end.

(** [^.*?<w1>.*?<w2>.*?$] under MULTILINE, for a line holding the words in
    this order. *)
Definition line_with (words : list regex) : xregex :=
  XCat BeginL
    (fold_right (fun w x => XCat (Lazy AAny 0 None) (XCat (Base w) x))
                (XCat (Lazy AAny 0 None) EndL) words).

Definition _clean_conversation (conversation : string) : string :=
  if Str.is_empty conversation then ""
  else
    let conversation :=
      ReX.sub true (line_with [Lit "TOTAL WIRELESS"; Lit "Customer Support"]) "" conversation in
    let conversation := ReX.sub true (line_with [Lit "Dataset"]) "" conversation in
    let conversation :=
      ReX.sub false (line_with [Cat (Lit "==") (plus (ASet false [CChar "="]))]) ""
              conversation in
    let conversation := ReX.sub false (line_with [Lit "Channels:"]) "" conversation in
    let conversation :=
      Re.sub false (seq [Lit (String "010" ""); star space; Lit (String "010" "");
                         star space; plus (ASet false [CChar "010"])])
             (String "010" (String "010" "")) conversation in
    Str.strip conversation.

Definition _clean_resolution (resolution : string) : string :=
  if Str.is_empty resolution then ""
  else
    let resolution := Re.sub true (from_label "Impact:") "" resolution in
    let resolution := Re.sub true (from_label "Root Cause:") "" resolution in
    Str.strip resolution.

Definition _clean_impact (impact : string) : string :=
  if Str.is_empty impact then ""
  else
    let impact := Re.sub true (from_label "Root Cause:") "" impact in
    let impact := Re.sub true (from_label "Resolution:") "" impact in
    Str.strip impact.

(** What a cleaning function does with a JSON value: a falsy value gives
    the empty string; a string is cleaned; any other value makes the first
    [re] call raise [TypeError], or [.strip()] raise [AttributeError]. *)
Inductive failure : Type :=
| Raised (e : exn)
| AttributeError (attribute : string).

Definition clean_value (f : string -> string) (on_other : failure) (v : value)
    : value + failure :=
  if negb (truthy v) then inl (VStr "")
  else
    match v with
    | VStr s => inl (VStr (f s))
    | _ => inr on_other
    end.

Definition and_then {E A B : Type} (x : A + E) (f : A -> B + E) : B + E :=
  match x with
  | inl a => f a
  | inr e => inr e
  end.

Notation "x <-- e1 ;;; e2" := (and_then e1 (fun x => e2))
  (at level 100, e1 at next level, right associativity).

(** [transcript.get(key, '')]. *)
Definition get_or_empty (transcript : gmap string value) (key : string) : value :=
  default (VStr "") (transcript !! key).

(** The fields [_clean_single_transcript] sets, in the order it cleans
    them, each with its cleaning function. *)
Definition cleaners : list (string * (value -> value + failure)) :=
  [ ("category", clean_value _clean_category (Raised TypeError));
    ("severity", clean_value _clean_severity (Raised TypeError));
    ("journey_type", clean_value _clean_journey_type (AttributeError "strip"));
    ("date", clean_value _clean_date (Raised TypeError));
    ("transcript", clean_value _clean_conversation (Raised TypeError));
    ("resolution", clean_value _clean_resolution (Raised TypeError));
    ("impact", clean_value _clean_impact (Raised TypeError)) ].

(** [cleaned[key] = clean(transcript.get(key, ''))], for each cleaner. *)
Fixpoint clean_fields (todo : list (string * (value -> value + failure)))
    (transcript cleaned : gmap string value) : gmap string value + failure :=
  match todo with
  | [] => inl cleaned
  | (key, clean) :: todo' =>
      v <-- clean (get_or_empty transcript key) ;;;
      clean_fields todo' transcript (<[key := v]> cleaned)
  end.

Definition _clean_single_transcript (transcript : gmap string value)
    : gmap string value + failure :=
  clean_fields cleaners transcript transcript.

(** The loop of [clean_parsed_data]; the progress line reads
    [cleaned['call_id']]. *)
Fixpoint clean_loop (todo cleaned_transcripts : list (gmap string value))
    : list (gmap string value) + failure :=
  match todo with
  | [] => inl cleaned_transcripts
  | transcript :: todo' =>
      cleaned <-- _clean_single_transcript transcript ;;;
      _ <-- match cleaned !! "call_id" with
            | Some v => inl v
            | None => inr (Raised (KeyError "call_id"))
            end ;;;
      clean_loop todo' (cleaned_transcripts ++ [cleaned])%list
  end.

(** [clean_parsed_data] on the records of the input file: the status it
    returns and the records it writes, if any.  The input file is a JSON
    object with a [transcripts] array of objects and a [metadata] object
    or none, which is what [save_parsed_data] writes.  The metadata is
    built and the file is written after the loop, inside the one handler
    that returns [False]. *)
Definition clean_parsed_data (input : list (gmap string value))
    : bool * option (list (gmap string value)) :=
  match clean_loop input [] with
  | inl cleaned_transcripts =>
      if metadata_hashable cleaned_transcripts
      then (true, Some cleaned_transcripts)
      else (false, None)
  | inr _ => (false, None)
  end.

(** * Specification-side definitions *)

Definition sample_text : string := "Call me at 555-123-4567 or email a@b.com".

Definition patterns_of (pii_type : string) : list Re.regex :=
  match List.find (fun e => String.eqb (fst e) pii_type) pii_patterns with
  | Some e => snd e
  | None => []
  end.

Definition no_match (patterns : list Re.regex) (text : string) : bool :=
  forallb (fun p => negb (Re.matches true p text)) patterns.

Definition zip_text : string := "ZIP code: 12345678901234567".

Definition all_pii_regexes : list Re.regex :=
  List.concat (List.map snd pii_patterns) ++ List.map fst telecom_patterns.

(** The valid pieces each separator yields, in declaration order. *)
Definition candidates (content : string) : list (list string) :=
  List.map (fun pattern => valid_splits (Re.split true pattern content))
           potential_separators.

Definition pick (calls valid : list string) : list string :=
  if Nat.ltb (List.length calls) (List.length valid) then valid else calls.

(** The filter as the specification words it: a piece is kept when its
    trimmed length is at least 300. *)
Definition valid_splits_min300 (test_splits : list string) : list string :=
  List.map Str.strip
    (List.filter (fun s => Nat.leb 300 (String.length (Str.strip s))) test_splits).

Definition sections_min300 (content : string) : list string :=
  let calls :=
    fold_left (fun calls pattern =>
                 pick calls (valid_splits_min300 (Re.split true pattern content)))
              potential_separators [] in
  match calls with
  | [] => [content]
  | _ => calls
  end.

Definition doc300 : string :=
  Str.replicate 300 "a" ++ "===" ++ Str.replicate 300 "b".

(** The value of the first entry of a table whose key occurs in [text]. *)
Definition first_match (table : list (string * string)) (text : string) : option string :=
  snd <$> List.find (fun e => Str.contains (fst e) text) table.

(** The order in which [_clean_severity] tests its keywords. *)
Definition severity_levels : list (string * string) :=
  [ ("high", "High"); ("medium", "Medium"); ("low", "Low"); ("critical", "Critical") ].

Definition severity_labels : list string := ["severity:"; "priority:"; "level:"].

(** The fields [_mask_single_transcript] may rewrite. *)
Definition masked_fields : list string := fields_to_mask ++ ["call_id"].

(** The values [_mask_text] accepts: the strings and the falsy values. *)
Definition maskable (v : value) : bool :=
  match v with
  | VStr _ => true
  | _ => negb (truthy v)
  end.

Definition maskable_at (transcript : gmap string value) (field : string) : bool :=
  match transcript !! field with
  | Some v => maskable v
  | None => true
  end.

Definition maskable_record (transcript : gmap string value) : bool :=
  forallb (maskable_at transcript) masked_fields.

(** What one field adds to the tally of its record. *)
Definition field_counts (transcript : gmap string value) (pii_found : gmap string nat)
    (field : string) : gmap string nat :=
  match transcript !! field with
  | Some (VStr s) =>
      if Str.is_empty s then pii_found else add_counts pii_found (snd (mask_body s))
  | _ => pii_found
  end.

(** The tally of a record, read off the four text fields alone. *)
Definition fields_tally (transcript : gmap string value) : gmap string nat :=
  fold_left (field_counts transcript) fields_to_mask zero_counts.

(** A record on which the loop of [mask_data] raises: masking it raises,
    or it has no [call_id] for the progress line. *)
Definition record_fails (transcript : gmap string value) : bool :=
  match _mask_single_transcript transcript with
  | inl _ => match transcript !! "call_id" with Some _ => false | None => true end
  | inr _ => true
  end.


Definition sample_record : gmap string value :=
  list_to_map
    [ ("call_id", VStr "555-123-4567");
      ("channel", VStr "Web Portal");
      ("date", VStr "August 1, 2024");
      ("category", VStr "Billing Dispute");
      ("severity", VStr "High");
      ("journey_type", VStr "Tangible");
      ("transcript", VStr "Agent: hello. Customer: call me at 555-987-6543");
      ("resolution", VStr "Sent mail to a@b.com");
      ("impact", VStr "");
      ("root_cause", VStr "Typo in 555-987-6543");
      ("raw_text_length", VInt 412) ].


(** The rules of [_extract_channel], in order: the token looked for in the
    upper-cased call id, the keywords looked for in the lower-cased text,
    and the channel. *)
Definition channel_rules : list (string * list string * string) :=
  [ ("TASORA", ["tasora"], "TASORA");
    ("WEB", ["web portal"; "website"], "Web Portal");
    ("APP", ["mobile app"; "application"], "Mobile App");
    ("TARGET", ["target"], "Target");
    ("SMS", ["sms"; "bot"; "ivr"], "SMS/Bot/IVR") ].

Definition rule_fires (call_id_upper text_lower : string)
    (rule : string * list string * string) : bool :=
  (Str.contains (fst (fst rule)) call_id_upper ||
   existsb (fun k => Str.contains k text_lower) (snd (fst rule)))%bool.

Definition channel_by_rules (call_id_upper text_lower : string) : string :=
  match List.find (rule_fires call_id_upper text_lower) channel_rules with
  | Some rule => snd rule
  | None => "Unknown"
  end.

(** The keyword priority of the call-id synthesis, read as a channel. *)
Definition channel_by_keywords (text_lower : string) : string :=
  if Str.contains "tasora" text_lower then "TASORA"
  else if (Str.contains "web" text_lower || Str.contains "portal" text_lower)%bool
  then "Web Portal"
  else if (Str.contains "app" text_lower || Str.contains "mobile" text_lower)%bool
  then "Mobile App"
  else if Str.contains "target" text_lower then "Target"
  else if (Str.contains "sms" text_lower || Str.contains "bot" text_lower
           || Str.contains "ivr" text_lower)%bool
  then "SMS/Bot/IVR"
  else "Unknown".

Definition all_digits (s : string) : bool :=
  forallb Char.is_digit (list_ascii_of_string s).

Definition no_digit (s : string) : bool :=
  forallb (fun c => negb (Char.is_digit c)) (list_ascii_of_string s).

(** * Specification-side definitions, continued *)

(** [int(s)] for a string of decimal digits. *)
Definition parse_decimal (s : string) : option nat :=
  Nat.of_uint <$> NilEmpty.uint_of_string s.

(** The channel parts of the synthesized identifiers. *)
Definition synthesized_channels : list string :=
  ["TASORA"; "WEB"; "APP"; "TARGET"; "SMS"; "UNKNOWN"].

Definition synthesized (ch : string) (n : nat) : string := "TW_" ++ ch ++ "_" ++ pad3 n.

(** What masking makes of the value of a maskable field. *)
Definition mask_value (v : value) : value :=
  match v with
  | VStr s => VStr (fst (mask_str s))
  | _ => v
  end.

(** The cleaning function of each field, on text. *)
Definition text_cleaners : list (string * (string -> string)) :=
  [ ("category", _clean_category);
    ("severity", _clean_severity);
    ("journey_type", _clean_journey_type);
    ("date", _clean_date);
    ("transcript", _clean_conversation);
    ("resolution", _clean_resolution);
    ("impact", _clean_impact) ].

Definition cleaned_fields : list string := List.map fst cleaners.

(** The text a cleaning function is applied to: the string itself, and the
    empty string for a falsy value. *)
Definition text_of (v : value) : string :=
  match v with
  | VStr s => s
  | _ => ""
  end.

Definition cleanable (transcript : gmap string value) : bool :=
  forallb (fun key => maskable (get_or_empty transcript key)) cleaned_fields.

(** A record with missing and null fields, as a JSON file can hold it. *)
Definition sparse_record : gmap string value :=
  list_to_map
    [ ("call_id", VStr "TW_WEB_003"); ("category", VNull); ("severity", VInt 0);
      ("date", VStr " on 2024-08-01 ") ].

(** Whether the channel set of the metadata can be built:
    [set(call.get('channel', 'Unknown') for call in calls)] hashes every
    channel. *)
Definition channels_hashable (calls : list (gmap string value)) : bool :=
  forallb (fun call => hashable (default (VStr "Unknown") (call !! "channel"))) calls.

(** A record on which the loop of [clean_parsed_data] raises. *)
Definition record_unclean (transcript : gmap string value) : bool :=
  match _clean_single_transcript transcript with
  | inl cleaned => match cleaned !! "call_id" with Some _ => false | None => true end
  | inr _ => true
  end.

(** The fields of a parsed record that hold text. *)
Definition text_fields : list string :=
  [ "call_id"; "channel"; "date"; "category"; "severity"; "journey_type";
    "transcript"; "resolution"; "impact"; "root_cause" ].

Definition holds_text (transcript : gmap string value) (key : string) : bool :=
  match transcript !! key with
  | Some (VStr _) => true
  | _ => false
  end.

Definition all_text (transcript : gmap string value) : bool :=
  forallb (holds_text transcript) text_fields.

(** One record per section, numbered from [i + 1] on. *)
Fixpoint number_calls (calls : list string) (i : nat) : list (gmap string value) :=
  match calls with
  | [] => []
  | call_text :: calls' => _parse_single_call call_text (i + 1) :: number_calls calls' (S i)
  end.

(** The pattern matches nowhere from the current position on. *)
Fixpoint fails_from (ic : bool) (r : regex) (pv : option ascii) (s : string) : Prop :=
  Re.match_here ic r pv s = None /\
  match s with
  | String c s' => fails_from ic r (Some c) s'
  | EmptyString => True
  end.

(** Every character is a word character. *)
Definition word_string (s : string) : bool :=
  forallb Char.is_word (list_ascii_of_string s).

(** The ways [TW_] is written that a case-insensitive search accepts. *)
Definition tw_prefixes : list string := ["TW_"; "Tw_"; "tW_"; "tw_"].

(** A pattern that begins with [\b] and cannot match the empty text. *)
Definition guarded (p : regex) : Prop :=
  exists r, p = Cat WordB r /\ forall pv, Re.match_here true r pv "" = None.

(** * Properties *)


(** ** Masking of text *)

(** C5. Masking "Call me at 555-123-4567 or email a@b.com" puts
    [[PHONE_NUMBER]] and [[EMAIL_ADDRESS]] in the output, the output matches
    none of the phone and e-mail patterns any more, and the tally is 1 for
    the phone category and 1 for the e-mail category. *)
Theorem mask_sample_text :
  let masked := fst (mask_str sample_text) in
  let tally := snd (mask_str sample_text) in
  masked = "Call me at [PHONE_NUMBER] or email [EMAIL_ADDRESS]" /\
  Str.contains "[PHONE_NUMBER]" masked = true /\
  Str.contains "[EMAIL_ADDRESS]" masked = true /\
  no_match (patterns_of "phone_numbers") masked = true /\
  no_match (patterns_of "emails") masked = true /\
  List.length (patterns_of "phone_numbers") = 4 /\
  List.length (patterns_of "emails") = 1 /\
  tally !! "phone_numbers" = Some 1 /\
  tally !! "emails" = Some 1.
Proof. cbv zeta. compute_done. Qed.

(** C1, as stated, fails: the telecom pass cuts "ZIP code: 12345" out of a
    longer digit run, and the twelve digits left behind are an account
    number for the second application. *)
Lemma mask_twice_differs :
  fst (mask_str zip_text) = "[ZIP_CODE]678901234567" /\
  fst (mask_str (fst (mask_str zip_text))) = "[ZIP_CODE][ACCOUNT_NUMBER]" /\
  fst (mask_str (fst (mask_str zip_text))) <> fst (mask_str zip_text).
Proof.
  assert (H1 : fst (mask_str zip_text) = "[ZIP_CODE]678901234567") by (vm_compute; reflexivity).
  assert (H2 : fst (mask_str "[ZIP_CODE]678901234567") = "[ZIP_CODE][ACCOUNT_NUMBER]")
    by (vm_compute; reflexivity).
  rewrite H1, H2. split; [reflexivity | split; [reflexivity | discriminate]].
Qed.

(** C1, amended. None of the eight category placeholders and none of the
    seven telecom tokens matches a pattern of the category table or of the
    telecom pass; masking such a token returns it unchanged with an all-zero
    tally, so masking it twice is the same as masking it once. *)
Theorem mask_tokens_fixed :
  List.length category_tokens = 8 /\ List.length telecom_tokens = 7 /\
  Forall (fun token =>
            no_match all_pii_regexes token = true /\
            fst (mask_str token) = token /\
            snd (mask_str token) = zero_counts /\
            fst (mask_str (fst (mask_str token))) = fst (mask_str token))
         (category_tokens ++ telecom_tokens).
Proof.
  split; [reflexivity | split; [reflexivity |]].
  compute_done.
Qed.



(** ** Segmentation *)

Lemma separators_fold (content : string) (init : list string) :
  fold_left (try_separator content) potential_separators init =
  fold_left pick (candidates content) init.
Proof.
  unfold candidates. revert init.
  induction potential_separators as [|p ps IH]; intros init; simpl; [reflexivity|].
  apply IH.
Qed.

Lemma sections_fold (content : string) :
  sections content =
  match fold_left pick (candidates content) [] with
  | [] => [content]
  | _ => fold_left pick (candidates content) []
  end.
Proof. unfold sections. rewrite separators_fold. reflexivity. Qed.

Lemma pick_first_max (cands : list (list string)) : forall best : list string,
  (fold_left pick cands best = best /\
   Forall (fun w => List.length w <= List.length best) cands) \/
  (exists i : nat,
     cands !! i = Some (fold_left pick cands best) /\
     List.length best < List.length (fold_left pick cands best) /\
     Forall (fun w => List.length w <= List.length (fold_left pick cands best)) cands /\
     forall (j : nat) (w : list string),
       j < i -> cands !! j = Some w ->
       List.length w < List.length (fold_left pick cands best)).
Proof.
  induction cands as [|w cands IH]; intros best; cbn [fold_left].
  - left. split; [reflexivity | constructor].
  - assert (Hp : pick best w =
                 if Nat.ltb (List.length best) (List.length w) then w else best)
      by reflexivity.
    destruct (Nat.ltb_spec (List.length best) (List.length w)) as [Hlt | Hge];
      rewrite Hp; clear Hp.
    + destruct (IH w) as [[Hr Hall] | (i & Hi & Hlen & Hall & Hfirst)].
      * right. exists 0. rewrite Hr. simpl. repeat split; try assumption.
        -- constructor; [lia | assumption].
        -- intros j v Hj. lia.
      * right. exists (S i). simpl. repeat split; try assumption; try lia.
        -- constructor; [lia | assumption].
        -- intros [|j] v Hj Hv; simpl in Hv.
           ++ injection Hv as <-. lia.
           ++ apply (Hfirst j); [lia | assumption].
    + destruct (IH best) as [[Hr Hall] | (i & Hi & Hlen & Hall & Hfirst)].
      * left. split; [assumption |]. constructor; [lia | assumption].
      * right. exists (S i). simpl. repeat split; try assumption.
        -- constructor; [lia | assumption].
        -- intros [|j] v Hj Hv; simpl in Hv.
           ++ injection Hv as <-. lia.
           ++ apply (Hfirst j); [lia | assumption].
Qed.

Lemma valid_splits_long (test_splits : list string) :
  Forall (fun piece => 300 < String.length piece) (valid_splits test_splits).
Proof.
  unfold valid_splits. induction test_splits as [|s ts IH]; simpl; [constructor|].
  destruct (Nat.ltb_spec 300 (String.length (Str.strip s))); simpl; [|assumption].
  constructor; assumption.
Qed.

Lemma valid_splits_spec (test_splits : list string) (piece : string) :
  In piece (valid_splits test_splits) <->
  exists s, In s test_splits /\ piece = Str.strip s /\ 300 < String.length (Str.strip s).
Proof.
  unfold valid_splits. rewrite in_map_iff. split.
  - intros (s & <- & Hin). apply filter_In in Hin as [Hin Hlen].
    exists s. repeat split; [assumption|]. apply Nat.ltb_lt. exact Hlen.
  - intros (s & Hin & -> & Hlen). exists s. split; [reflexivity|].
    apply filter_In. split; [assumption|]. apply Nat.ltb_lt. exact Hlen.
Qed.

(** C2, as stated, fails: two pieces of exactly 300 characters are both
    discarded, so the document stays whole, where keeping pieces of at
    least 300 characters would give the two pieces. *)
Lemma sections_drop_300 :
  sections doc300 = [doc300] /\
  sections_min300 doc300 = [Str.replicate 300 "a"; Str.replicate 300 "b"] /\
  sections doc300 <> sections_min300 doc300.
Proof.
  assert (H1 : sections doc300 = [doc300]) by (vm_compute; reflexivity).
  assert (H2 : sections_min300 doc300 = [Str.replicate 300 "a"; Str.replicate 300 "b"])
    by (vm_compute; reflexivity).
  rewrite H1, H2. split; [reflexivity | split; [reflexivity |]]. intros H. apply (f_equal (@List.length string)) in H.
  discriminate H.
Qed.

(** C2, amended. Each separator pattern is tried on the whole document:
    the document is split at the pattern's matches, the pieces whose
    trimmed length is strictly greater than 300 are kept, trimmed and in
    order, and every other piece is dropped.  The sections are the kept
    pieces of the first pattern, in declaration order, that keeps the
    greatest number of pieces; when no pattern keeps a piece, the whole
    document is the single section. *)
Theorem sections_first_maximal (content : string) :
  let kept := fun pattern : Re.regex =>
    List.map Str.strip
      (List.filter (fun piece => Nat.ltb 300 (String.length (Str.strip piece)))
                   (Re.split true pattern content)) in
  let tried := List.map kept potential_separators in
  exists calls : list string,
    sections content = match calls with [] => [content] | _ => calls end /\
    Forall (fun valid => List.length valid <= List.length calls) tried /\
    (calls = [] \/
     exists i : nat,
       tried !! i = Some calls /\
       forall (j : nat) (valid : list string),
         j < i -> tried !! j = Some valid ->
         List.length valid < List.length calls).
Proof.
  intros kept tried.
  assert (Htried : tried = candidates content) by reflexivity.
  rewrite Htried. clear kept tried Htried.
  exists (fold_left pick (candidates content) []).
  split; [apply sections_fold|].
  destruct (pick_first_max (candidates content) []) as [[Hr Hall] | (i & Hi & Hlen & Hall & Hfirst)].
  - rewrite Hr. split; [assumption | left; reflexivity].
  - split; [assumption|]. right. exists i. split; assumption.
Qed.



(** ** Normalisation *)

Lemma lookup_mapping_first (mapping : list (string * string)) (text fallback : string) :
  lookup_mapping mapping text fallback = default fallback (first_match mapping text).
Proof.
  unfold first_match.
  induction mapping as [|[key value] mapping IH]; simpl; [reflexivity|].
  destruct (Str.contains key text); simpl; [reflexivity | exact IH].
Qed.

(** C3, as stated, fails: a section without a severity label gives the
    empty raw severity, and its normalised severity is empty, not "Medium". *)
Lemma clean_severity_empty :
  _extract_field "Agent: hello there" severity_labels = "" /\
  _clean_severity (_extract_field "Agent: hello there" severity_labels) = "" /\
  _clean_severity "" <> "Medium".
Proof.
  assert (H : _extract_field "Agent: hello there" severity_labels = "")
    by (vm_compute; reflexivity).
  rewrite H. split; [reflexivity | split; [reflexivity | discriminate]].
Qed.

(** C3, amended. The normalised severity of the empty raw severity is the
    empty string; "Medium" is the normalised severity of a non-empty raw
    value that is empty once the contamination is cut and it is trimmed. *)
Theorem clean_severity_default (severity : string)
    (Hnonempty : severity <> "")
    (Hblank : Str.strip (strip_severity severity) = "") :
  _clean_severity "" = "" /\ _clean_severity severity = "Medium".
Proof.
  split; [reflexivity|].
  unfold _clean_severity.
  destruct severity as [|c s]; [contradiction|]. cbn [Str.is_empty].
  cbv zeta. rewrite Hblank. reflexivity.
Qed.

Lemma clean_severity_default_witness :
  "   " <> "" /\ Str.strip (strip_severity "   ") = "" /\
  _clean_severity "   " = "Medium".
Proof.
  assert (Hne : "   " <> "") by discriminate.
  assert (Hb : Str.strip (strip_severity "   ") = "") by (vm_compute; reflexivity).
  split; [exact Hne | split; [exact Hb |]].
  exact (proj2 (clean_severity_default "   " Hne Hb)).
Defined.

(** C7, as stated, fails: "high" is tested before "critical", and a value
    matching no keyword comes back trimmed and title-cased. *)
Lemma clean_severity_order :
  _clean_severity "critical high" = "High" /\
  _clean_severity "critical high" <> "Critical" /\
  _clean_severity "urgent" = "Urgent".
Proof.
  assert (H : _clean_severity "critical high" = "High") by (vm_compute; reflexivity).
  rewrite H. split; [reflexivity | split; [discriminate | vm_compute; reflexivity]].
Qed.

(** C7, amended. For a non-empty raw severity, let [c] be the value with
    the contamination cut, trimmed and title-cased.  The result is the
    level of the first keyword in the order high, medium, low, critical
    that occurs in the lower-cased [c]; with no keyword it is [c] itself,
    or "Medium" when [c] is empty. *)
Theorem clean_severity_priority (a : ascii) (s : string) :
  let c := Str.title (Str.strip (strip_severity (String a s))) in
  _clean_severity (String a s) =
  default (if Str.is_empty c then "Medium" else c)
          (first_match severity_levels (Str.lower c)).
Proof.
  cbv zeta. unfold _clean_severity, first_match, severity_levels.
  cbn [Str.is_empty List.find fst snd].
  set (l := Str.lower _).
  destruct (Str.contains "high" l); [reflexivity|].
  destruct (Str.contains "medium" l); [reflexivity|].
  destruct (Str.contains "low" l); [reflexivity|].
  destruct (Str.contains "critical" l); reflexivity.
Qed.

(** C4, as stated, fails: the empty category stays empty, and an unmatched
    category is returned as it was written, not title-cased. *)
Lemma clean_category_empty :
  _clean_category "" = "" /\ _clean_category "" <> "Unknown" /\
  _clean_category "network outage" = "network outage".
Proof. split; [reflexivity | split; [discriminate | vm_compute; reflexivity]]. Qed.

(** C4, amended. [_clean_category "device activation issue"] is "Device
    Activation" and the empty category stays empty.  For a non-empty
    category, let [c] be the value with the contamination cut and trimmed:
    the result is the canonical name of the first table key that occurs in
    the lower-cased [c]; with no such key it is [c] as it stands, or
    "Unknown" when [c] is empty. *)
Theorem clean_category_lookup (a : ascii) (s : string) :
  let c := Str.strip (strip_category (String a s)) in
  _clean_category "device activation issue" = "Device Activation" /\
  _clean_category "" = "" /\
  _clean_category (String a s) =
  default (if Str.is_empty c then "Unknown" else c)
          (first_match category_mapping (Str.lower c)).
Proof.
  cbv zeta. split; [vm_compute; reflexivity | split; [reflexivity|]].
  unfold _clean_category. cbn [Str.is_empty]. cbv zeta.
  apply lookup_mapping_first.
Qed.



(** ** Masking of records *)

Opaque zero_counts mask_body add_counts.

Lemma mask_text_maskable (v : value) :
  maskable v = true -> exists r, _mask_text v = inl r.
Proof.
  unfold _mask_text. destruct v as [s | n | | items | members]; simpl.
  - intros _. destruct (Str.is_empty s); simpl; [eexists; reflexivity|].
    destruct (mask_body s). eexists; reflexivity.
  - intros H. rewrite H. simpl. eexists; reflexivity.
  - intros _. eexists; reflexivity.
  - intros H. rewrite H. simpl. eexists; reflexivity.
  - intros H. rewrite H. simpl. eexists; reflexivity.
Qed.

Lemma mask_text_string (s : string) :
  _mask_text (VStr s) = inl (VStr (fst (mask_str s)), snd (mask_str s)).
Proof.
  unfold _mask_text, mask_str. simpl. destruct (Str.is_empty s); simpl; [reflexivity|].
  destruct (mask_body s); reflexivity.
Qed.

Lemma mask_field_frame (masked masked' : gmap string value)
    (pii_found pii_found' : gmap string nat) (field : string) :
  mask_field (masked, pii_found) field = inl (masked', pii_found') ->
  forall k : string, k <> field -> masked' !! k = masked !! k.
Proof.
  unfold mask_field. intros H k Hk.
  destruct (masked !! field) as [v|] eqn:Hv.
  - destruct (truthy v).
    + destruct (_mask_text v) as [r|e]; simpl in H; [|discriminate].
      injection H as <- _. apply lookup_insert_ne. congruence.
    + injection H as <- _. reflexivity.
  - injection H as <- _. reflexivity.
Qed.

Lemma mask_fields_frame (fields : list string) :
  forall (masked masked' : gmap string value) (pii_found pii_found' : gmap string nat),
    mask_fields fields (masked, pii_found) = inl (masked', pii_found') ->
    forall k : string, ~ In k fields -> masked' !! k = masked !! k.
Proof.
  induction fields as [|f fields IH]; intros m m' c c' H k Hk; cbn [mask_fields] in H.
  - unfold ret in H. injection H as <- _. reflexivity.
  - destruct (mask_field (m, c) f) as [[m1 c1]|e] eqn:Hf; cbn [bind] in H; [|discriminate].
    rewrite (IH _ _ _ _ H k) by (intros Hin; apply Hk; right; exact Hin).
    apply (mask_field_frame _ _ _ _ _ Hf). intros ->. apply Hk. left. reflexivity.
Qed.

(** Frame of [_mask_single_transcript], for whatever record it returns. *)
Lemma mask_single_frame (transcript masked : gmap string value) (pii_found : gmap string nat) :
  _mask_single_transcript transcript = inl (masked, pii_found) ->
  forall k : string, ~ In k masked_fields -> masked !! k = transcript !! k.
Proof.
  unfold _mask_single_transcript. intros H k Hk.
  destruct (mask_fields fields_to_mask (transcript, zero_counts)) as [[m1 c1]|e] eqn:Hf;
    cbn [bind] in H; [|discriminate].
  assert (Hm1 : m1 !! k = transcript !! k).
  { apply (mask_fields_frame _ _ _ _ _ Hf). intros Hin. apply Hk.
    unfold masked_fields. apply in_or_app. left. exact Hin. }
  destruct (m1 !! "call_id") as [v|].
  - destruct (_mask_text v) as [r|e]; cbn [bind] in H; [|discriminate].
    injection H as <- _. rewrite lookup_insert_ne; [exact Hm1|].
    intros <-. apply Hk. unfold masked_fields. apply in_or_app. right. left. reflexivity.
  - injection H as <- _. exact Hm1.
Qed.

Lemma mask_field_counts (masked : gmap string value) (pii_found : gmap string nat)
    (field : string) :
  maskable_at masked field = true ->
  exists masked', mask_field (masked, pii_found) field =
                  inl (masked', field_counts masked pii_found field).
Proof.
  unfold maskable_at, mask_field, field_counts.
  destruct (masked !! field) as [v|]; [|intros _; eexists; reflexivity].
  destruct v as [s | n | | items | members]; simpl.
  - intros _. destruct (Str.is_empty s) eqn:Hs; simpl; [eexists; reflexivity|].
    unfold _mask_text. simpl. rewrite Hs. simpl.
    destruct (mask_body s). simpl. eexists; reflexivity.
  - intros H. apply negb_true_iff in H. rewrite H. eexists; reflexivity.
  - intros _. eexists; reflexivity.
  - intros H. apply negb_true_iff in H. rewrite H. eexists; reflexivity.
  - intros H. apply negb_true_iff in H. rewrite H. eexists; reflexivity.
Qed.

Lemma field_counts_ext (t1 t2 : gmap string value) (c : gmap string nat) (field : string) :
  t1 !! field = t2 !! field -> field_counts t1 c field = field_counts t2 c field.
Proof. unfold field_counts. intros ->. reflexivity. Qed.

Lemma fold_field_counts_ext (fields : list string) (t1 t2 : gmap string value) :
  (forall f, In f fields -> t1 !! f = t2 !! f) ->
  forall c, fold_left (field_counts t1) fields c = fold_left (field_counts t2) fields c.
Proof.
  induction fields as [|f fields IH]; intros Heq c; simpl; [reflexivity|].
  rewrite (field_counts_ext t1 t2 c f) by (apply Heq; left; reflexivity).
  apply IH. intros g Hg. apply Heq. right. exact Hg.
Qed.

Lemma mask_fields_counts (fields : list string) :
  NoDup fields ->
  forall (masked : gmap string value) (pii_found : gmap string nat),
    forallb (maskable_at masked) fields = true ->
    exists masked',
      mask_fields fields (masked, pii_found) =
      inl (masked', fold_left (field_counts masked) fields pii_found).
Proof.
  induction 1 as [|f fields Hnotin Hnodup IH]; intros m c Hok;
    cbn [mask_fields fold_left].
  - eexists; reflexivity.
  - cbn [forallb] in Hok. apply andb_true_iff in Hok as [Hf Hrest].
    destruct (mask_field_counts m c f Hf) as [m1 Hm1]. rewrite Hm1. cbn [bind].
    assert (Hsame : forall g, In g fields -> m1 !! g = m !! g).
    { intros g Hg. apply (mask_field_frame _ _ _ _ _ Hm1).
      intros ->. apply Hnotin. apply list_elem_of_In. exact Hg. }
    destruct (IH m1 (field_counts m c f)) as [m2 Hm2].
    { apply forallb_forall. intros g Hg. unfold maskable_at. rewrite (Hsame g Hg).
      rewrite forallb_forall in Hrest. apply (Hrest g Hg). }
    exists m2. rewrite Hm2. f_equal. f_equal.
    apply fold_field_counts_ext. exact Hsame.
Qed.

Lemma fields_to_mask_nodup : NoDup fields_to_mask.
Proof. apply (bool_decide_unpack _). vm_compute. exact I. Qed.

(** A record whose maskable fields hold strings or falsy values is masked
    without an exception, and the tally returned is [fields_tally]. *)
Lemma mask_single_total (transcript : gmap string value) :
  maskable_record transcript = true ->
  exists masked,
    _mask_single_transcript transcript = inl (masked, fields_tally transcript).
Proof.
  unfold maskable_record, masked_fields. rewrite forallb_app.
  intros H. apply andb_true_iff in H as [Hfields Hid].
  unfold _mask_single_transcript, fields_tally.
  destruct (mask_fields_counts fields_to_mask fields_to_mask_nodup transcript zero_counts Hfields)
    as [m1 Hm1].
  rewrite Hm1. cbn [bind].
  assert (Hcid : m1 !! "call_id" = transcript !! "call_id").
  { apply (mask_fields_frame _ _ _ _ _ Hm1). vm_compute. intuition discriminate. }
  rewrite Hcid. cbn [forallb] in Hid. unfold maskable_at in Hid.
  destruct (transcript !! "call_id") as [v|]; [|eexists; reflexivity].
  rewrite andb_true_r in Hid. destruct (mask_text_maskable v Hid) as [r Hr].
  rewrite Hr. cbn [bind]. eexists; reflexivity.
Qed.

Lemma fields_tally_call_id (transcript : gmap string value) (v : value) :
  fields_tally (<["call_id" := v]> transcript) = fields_tally transcript.
Proof.
  unfold fields_tally. apply fold_field_counts_ext.
  intros f Hf. apply lookup_insert_ne. intros <-. revert Hf. vm_compute.
  intuition discriminate.
Qed.

Lemma mask_loop_ok (todo : list (gmap string value)) :
  forall (acc : list (gmap string value)) (stats : gmap string nat),
    existsb record_fails todo = false ->
    exists results : list (gmap string value * gmap string nat),
      mask_loop todo acc stats =
        inl ((acc ++ List.map fst results)%list, fold_left add_counts (List.map snd results) stats) /\
      Forall2 (fun t r => _mask_single_transcript t = inl r) todo results.
Proof.
  induction todo as [|t todo IH]; intros acc stats Hok; cbn [mask_loop existsb] in *.
  - exists []. split; [|constructor]. cbn [List.map fold_left]. rewrite app_nil_r. reflexivity.
  - apply orb_false_iff in Hok as [Ht Hrest]. unfold record_fails in Ht.
    destruct (_mask_single_transcript t) as [r|e] eqn:Hr; [|discriminate].
    destruct (t !! "call_id") as [v|]; [|discriminate]. cbn [bind ret].
    destruct (IH (acc ++ [fst r])%list (add_counts stats (snd r)) Hrest) as (rs & Hrs & Hall).
    exists (r :: rs). split; [|constructor; [exact Hr | exact Hall]].
    rewrite Hrs. cbn [List.map fold_left]. rewrite <- app_assoc. reflexivity.
Qed.


Lemma metadata_hashable_ext (calls calls' : list (gmap string value)) :
  Forall2 (fun call call' => call' !! "channel" = call !! "channel" /\
                             call' !! "category" = call !! "category") calls calls' ->
  metadata_hashable calls' = metadata_hashable calls.
Proof.
  intros H. unfold metadata_hashable. f_equal.
  - induction H as [|call call' calls calls' [Hch _] _ IH]; cbn [forallb]; [reflexivity|].
    rewrite Hch, IH. reflexivity.
  - induction H as [|call call' calls calls' [_ Hcat] _ IH]; cbn [forallb]; [reflexivity|].
    rewrite Hcat, IH. reflexivity.
Qed.

Lemma masked_metadata (input : list (gmap string value))
    (results : list (gmap string value * gmap string nat)) :
  Forall2 (fun t r => _mask_single_transcript t = inl r) input results ->
  metadata_hashable (List.map fst results) = metadata_hashable input.
Proof.
  intros H. apply metadata_hashable_ext.
  induction H as [|t [masked tally] ts rs Hr _ IH]; cbn [List.map fst]; constructor.
  - split; apply (mask_single_frame _ _ _ Hr); vm_compute; intuition discriminate.
  - exact IH.
Qed.

(** What [mask_data] does when no record raises. *)
Lemma mask_data_ok (input : list (gmap string value)) :
  existsb record_fails input = false ->
  exists results : list (gmap string value * gmap string nat),
    Forall2 (fun t r => _mask_single_transcript t = inl r) input results /\
    mask_data input =
      if metadata_hashable input
      then (true, Some (MaskedFile (List.length (List.map fst results))
                                   (fold_left add_counts (List.map snd results) zero_counts)
                                   (List.map fst results)))
      else (false, None).
Proof.
  intros Hok. unfold mask_data.
  destruct (mask_loop_ok input [] zero_counts Hok) as (rs & -> & Hall).
  exists rs. split; [exact Hall|]. cbn [app].
  rewrite (masked_metadata _ _ Hall). reflexivity.
Qed.



(** C9. A record whose maskable fields hold strings (or falsy values) is
    masked without an exception, and every field other than [transcript],
    [resolution], [impact], [root_cause] and [call_id] is present in the
    masked record exactly as in the input: same key, same value. *)
Theorem mask_single_keeps_other_fields (transcript : gmap string value)
    (Hok : maskable_record transcript = true) :
  exists (masked : gmap string value) (pii_found : gmap string nat),
    _mask_single_transcript transcript = inl (masked, pii_found) /\
    forall field : string, ~ In field masked_fields ->
      masked !! field = transcript !! field.
Proof.
  destruct (mask_single_total transcript Hok) as [masked Hm].
  exists masked, (fields_tally transcript). split; [exact Hm|].
  apply (mask_single_frame _ _ _ Hm).
Qed.

Lemma mask_single_keeps_other_fields_witness :
  maskable_record sample_record = true /\
  exists (masked : gmap string value) (pii_found : gmap string nat),
    _mask_single_transcript sample_record = inl (masked, pii_found) /\
    forall field : string, ~ In field masked_fields ->
      masked !! field = sample_record !! field.
Proof.
  assert (Hok : maskable_record sample_record = true) by (vm_compute; reflexivity).
  split; [exact Hok | exact (mask_single_keeps_other_fields sample_record Hok)].
Defined.

Lemma maskable_insert_call_id (transcript : gmap string value) (call_id : value) :
  maskable_record transcript = true -> maskable call_id = true ->
  maskable_record (<["call_id" := call_id]> transcript) = true.
Proof.
  unfold maskable_record. intros Hok Hid. apply forallb_forall. intros f Hf.
  rewrite forallb_forall in Hok. specialize (Hok f Hf). unfold maskable_at in *.
  destruct (decide ("call_id" = f)) as [<- | Hne].
  - rewrite lookup_insert_eq. exact Hid.
  - rewrite lookup_insert_ne by exact Hne. exact Hok.
Qed.

(** C10. The tally a record returns is [fields_tally]: it is built from the
    [transcript], [resolution], [impact] and [root_cause] fields alone.
    Whatever the [call_id] holds, the tally is the same, although the
    [call_id] stored in the masked record is the masked one. *)
Theorem call_id_not_tallied (transcript : gmap string value) (call_id : string)
    (Hok : maskable_record transcript = true) :
  exists masked : gmap string value,
    _mask_single_transcript (<["call_id" := VStr call_id]> transcript) =
      inl (masked, fields_tally transcript) /\
    masked !! "call_id" = Some (VStr (fst (mask_str call_id))).
Proof.
  assert (Hok' : maskable_record (<["call_id" := VStr call_id]> transcript) = true)
    by (apply maskable_insert_call_id; [exact Hok | reflexivity]).
  destruct (mask_single_total _ Hok') as [masked Hm].
  rewrite fields_tally_call_id in Hm.
  exists masked. split; [exact Hm|].
  revert Hm. unfold _mask_single_transcript.
  destruct (mask_fields fields_to_mask _) as [[m1 c1]|e] eqn:Hf; cbn [bind]; [|discriminate].
  assert (Hcid : m1 !! "call_id" = Some (VStr call_id)).
  { rewrite (mask_fields_frame _ _ _ _ _ Hf) by (vm_compute; intuition discriminate).
    apply lookup_insert_eq. }
  rewrite Hcid, mask_text_string. cbn [bind ret fst snd].
  intros H. injection H as <- _. apply lookup_insert_eq.
Qed.

Lemma call_id_not_tallied_witness :
  maskable_record sample_record = true /\
  fst (mask_str "555-123-4567") = "[PHONE_NUMBER]" /\
  fields_tally sample_record !! "phone_numbers" = Some 2 /\
  exists masked : gmap string value,
    _mask_single_transcript (<["call_id" := VStr "555-123-4567"]> sample_record) =
      inl (masked, fields_tally sample_record) /\
    masked !! "call_id" = Some (VStr (fst (mask_str "555-123-4567"))).
Proof.
  assert (Hok : maskable_record sample_record = true) by (vm_compute; reflexivity).
  split; [exact Hok|].
  split; [vm_compute; reflexivity|].
  split; [vm_compute; reflexivity|].
  exact (call_id_not_tallied sample_record "555-123-4567" Hok).
Defined.



(** ** Channel *)

(** *** Substrings *)

Lemma char_eqb_eq (a b : ascii) : Char.eqb a b = true <-> a = b.
Proof.
  unfold Char.eqb, Char.code. rewrite N.eqb_eq. split; [|intros ->; reflexivity].
  intros H. rewrite <- (ascii_N_embedding a), <- (ascii_N_embedding b), H. reflexivity.
Qed.

Lemma starts_with_spec (p s : string) :
  Str.starts_with p s = true <-> exists t, s = p ++ t.
Proof.
  revert s. induction p as [|a p IH]; intros s; simpl.
  - split; [intros _; exists s; reflexivity | reflexivity].
  - destruct s as [|b s].
    + split; [discriminate | intros [t Ht]; discriminate].
    + rewrite andb_true_iff, char_eqb_eq, IH. split.
      * intros [-> [t ->]]. exists t. reflexivity.
      * intros [t Ht]. injection Ht as -> ->. split; [reflexivity | exists t; reflexivity].
Qed.

Lemma contains_spec (p s : string) :
  Str.contains p s = true <-> exists a b, s = a ++ p ++ b.
Proof.
  induction s as [|c s IH]; simpl.
  - rewrite orb_false_r, starts_with_spec. split.
    + intros [t Ht]. exists "", t. exact Ht.
    + intros (a & b & H). destruct a; [exists b; exact H | discriminate].
  - rewrite orb_true_iff, starts_with_spec, IH. split.
    + intros [[t Ht] | (a & b & ->)].
      * exists "", t. exact Ht.
      * exists (String c a), b. reflexivity.
    + intros (a & b & H). destruct a as [|c' a].
      * left. exists b. exact H.
      * right. injection H as -> ->. exists a, b. reflexivity.
Qed.

Lemma app_cons (c : ascii) (a b : string) : String c a ++ b = String c (a ++ b).
Proof. reflexivity. Qed.

Lemma app_empty (b : string) : "" ++ b = b.
Proof. reflexivity. Qed.

Lemma string_app_assoc (a b c : string) : (a ++ b) ++ c = a ++ b ++ c.
Proof.
  induction a as [|x a IH]; [reflexivity|].
  rewrite !app_cons. f_equal. exact IH.
Qed.

Lemma contains_trans (q p s : string) :
  Str.contains q p = true -> Str.contains p s = true -> Str.contains q s = true.
Proof.
  rewrite !contains_spec. intros (a & b & ->) (a' & b' & ->).
  exists (a' ++ a), (b ++ b'). rewrite !string_app_assoc. reflexivity.
Qed.

Lemma contains_false_trans (q p s : string) :
  Str.contains q p = true -> Str.contains q s = false -> Str.contains p s = false.
Proof.
  intros Hqp Hqs. destruct (Str.contains p s) eqn:Hps; [|reflexivity].
  rewrite (contains_trans q p s Hqp Hps) in Hqs. discriminate.
Qed.

(** *** Identifiers ending in digits *)

Lemma starts_with_digits (t d : string) :
  all_digits d = true -> no_digit t = true -> t <> "" ->
  Str.starts_with t d = false.
Proof.
  intros Hd Ht Hne. destruct t as [|a t]; [contradiction|].
  destruct d as [|b d]; [reflexivity|]. simpl.
  destruct (Char.eqb a b) eqn:Hab; [|reflexivity].
  apply char_eqb_eq in Hab as ->.
  unfold all_digits in Hd. unfold no_digit in Ht. simpl in Hd, Ht.
  apply andb_true_iff in Hd as [Hb _]. apply andb_true_iff in Ht as [Hb' _].
  rewrite Hb in Hb'. discriminate.
Qed.

Lemma contains_digits (t d : string) :
  all_digits d = true -> no_digit t = true -> t <> "" ->
  Str.contains t d = false.
Proof.
  intros Hd Ht Hne. induction d as [|b d IH].
  - destruct t; [contradiction | reflexivity].
  - cbn [Str.contains]. rewrite (starts_with_digits t (String b d) Hd Ht Hne).
    apply IH. unfold all_digits in *. simpl in Hd.
    apply andb_true_iff in Hd as [_ Hd]. exact Hd.
Qed.

Lemma starts_with_app_digits (t x d : string) :
  all_digits d = true -> no_digit t = true ->
  Str.starts_with t (x ++ d) = Str.starts_with t x.
Proof.
  intros Hd. revert t. induction x as [|c x IH]; intros t Ht.
  - destruct t as [|a t]; [reflexivity|].
    rewrite app_empty. rewrite (starts_with_digits (String a t) d Hd Ht) by discriminate.
    reflexivity.
  - destruct t as [|a t]; [reflexivity|]. rewrite app_cons. cbn [Str.starts_with].
    rewrite IH; [reflexivity|].
    unfold no_digit in *. simpl in Ht. apply andb_true_iff in Ht as [_ Ht]. exact Ht.
Qed.

Lemma contains_app_digits (t x d : string) :
  all_digits d = true -> no_digit t = true -> t <> "" ->
  Str.contains t (x ++ d) = Str.contains t x.
Proof.
  intros Hd Ht Hne. induction x as [|c x IH].
  - rewrite app_empty. rewrite (contains_digits t d Hd Ht Hne).
    destruct t; [contradiction | reflexivity].
  - rewrite (app_cons c x d). cbn [Str.contains]. rewrite <- (app_cons c x d).
    rewrite (starts_with_app_digits t (String c x) d Hd Ht).
    rewrite IH. reflexivity.
Qed.

Lemma str_map_app (f : ascii -> ascii) (a b : string) :
  Str.map f (a ++ b) = Str.map f a ++ Str.map f b.
Proof.
  induction a as [|c a IH]; [reflexivity|].
  rewrite app_cons. cbn [Str.map]. rewrite app_cons. f_equal. exact IH.
Qed.

Lemma upper_digit (c : ascii) : Char.is_digit c = true -> Char.upper c = c.
Proof.
  unfold Char.upper, Char.is_lower, Char.is_digit, Char.between.
  intros H. apply andb_true_iff in H as [H1 H2].
  apply N.leb_le in H1, H2.
  destruct (N.leb_spec 97 (Char.code c)); [lia | reflexivity].
Qed.

Lemma upper_digits (d : string) : all_digits d = true -> Str.upper d = d.
Proof.
  unfold all_digits, Str.upper. induction d as [|c d IH]; simpl; [reflexivity|].
  intros H. apply andb_true_iff in H as [Hc Hd].
  rewrite (upper_digit c Hc), (IH Hd). reflexivity.
Qed.

Lemma all_digits_app (a b : string) :
  all_digits a = true -> all_digits b = true -> all_digits (a ++ b) = true.
Proof.
  unfold all_digits. induction a as [|c a IH]; [auto|].
  rewrite app_cons. cbn [list_ascii_of_string forallb].
  intros H Hb. apply andb_true_iff in H as [Hc Ha]. rewrite Hc. cbn [andb]. auto.
Qed.

Lemma all_digits_uint (u : Decimal.uint) :
  all_digits (NilEmpty.string_of_uint u) = true.
Proof. unfold all_digits. induction u; simpl; auto. Qed.

Lemma all_digits_zeros (n : nat) : all_digits (Str.replicate n "0") = true.
Proof. unfold all_digits. induction n; simpl; auto. Qed.

Lemma all_digits_pad3 (n : nat) : all_digits (pad3 n) = true.
Proof.
  unfold pad3, decimal. apply all_digits_app;
    [apply all_digits_zeros | apply all_digits_uint].
Qed.

(** Whether a channel token occurs in a synthesized identifier depends on
    its fixed part alone. *)
Lemma contains_synth (token fixed : string) (n : nat) :
  no_digit token = true -> token <> "" ->
  Str.contains token (Str.upper (fixed ++ pad3 n)) =
  Str.contains token (Str.upper fixed).
Proof.
  intros Ht Hne. unfold Str.upper. rewrite str_map_app.
  fold (Str.upper (pad3 n)). rewrite (upper_digits _ (all_digits_pad3 n)).
  apply contains_app_digits; [apply all_digits_pad3 | exact Ht | exact Hne].
Qed.

Ltac synth_token token fixed n :=
  rewrite (contains_synth token fixed n eq_refl ltac:(discriminate));
  let b := eval vm_compute in (Str.contains token (Str.upper fixed)) in
  change (Str.contains token (Str.upper fixed)) with b.

Ltac synth_tokens fixed n :=
  synth_token "TASORA" fixed n; synth_token "WEB" fixed n; synth_token "APP" fixed n;
  synth_token "TARGET" fixed n; synth_token "SMS" fixed n.

Lemma extract_channel_by_rules (text call_id : string) :
  _extract_channel text call_id = channel_by_rules (Str.upper call_id) (Str.lower text).
Proof.
  unfold _extract_channel, channel_by_rules, channel_rules, rule_fires.
  cbn [List.find fst snd existsb]. rewrite !orb_false_r, !orb_assoc.
  repeat match goal with
         | |- context [if ?b then _ else _] => destruct b; try reflexivity
         end.
Qed.

Lemma extract_channel_synthesized (text : string) (call_number : nat) :
  first_call_id call_id_patterns text = None ->
  _extract_channel text (_extract_call_id text call_number) =
  channel_by_keywords (Str.lower text).
Proof.
  intros Hnone. unfold _extract_call_id. rewrite Hnone. cbv zeta.
  unfold channel_by_keywords. set (l := Str.lower text).
  assert (Hwp : Str.contains "web" l = false -> Str.contains "web portal" l = false)
    by (apply contains_false_trans; reflexivity).
  assert (Hws : Str.contains "web" l = false -> Str.contains "website" l = false)
    by (apply contains_false_trans; reflexivity).
  assert (Hma : Str.contains "app" l = false -> Str.contains "mobile app" l = false)
    by (apply contains_false_trans; reflexivity).
  assert (Hap : Str.contains "app" l = false -> Str.contains "application" l = false)
    by (apply contains_false_trans; reflexivity).
  destruct (Str.contains "tasora" l) eqn:Ht.
  { unfold _extract_channel. fold l. rewrite Ht, orb_true_r. reflexivity. }
  destruct (Str.contains "web" l || Str.contains "portal" l)%bool eqn:Hw.
  { unfold _extract_channel. fold l. rewrite Ht.
    synth_tokens "TW_WEB_" call_number. reflexivity. }
  apply orb_false_iff in Hw as [Hweb Hportal].
  specialize (Hwp Hweb). specialize (Hws Hweb).
  destruct (Str.contains "app" l || Str.contains "mobile" l)%bool eqn:Ha.
  { unfold _extract_channel. fold l. rewrite Ht, Hwp, Hws.
    synth_tokens "TW_APP_" call_number. reflexivity. }
  apply orb_false_iff in Ha as [Happ Hmobile].
  specialize (Hma Happ). specialize (Hap Happ).
  destruct (Str.contains "target" l) eqn:Htg.
  { unfold _extract_channel. fold l. rewrite Ht, Hwp, Hws, Hma, Hap, Htg.
    synth_tokens "TW_TARGET_" call_number. reflexivity. }
  destruct (Str.contains "sms" l || Str.contains "bot" l)%bool eqn:Hs.
  { unfold _extract_channel. fold l. rewrite Ht, Hwp, Hws, Hma, Hap, Htg.
    synth_tokens "TW_SMS_" call_number. reflexivity. }
  apply orb_false_iff in Hs as [Hsms Hbot].
  unfold _extract_channel. fold l. rewrite Ht, Hwp, Hws, Hma, Hap, Htg, Hsms, Hbot.
  synth_tokens "TW_UNKNOWN_" call_number. cbn [orb].
  destruct (Str.contains "ivr" l); reflexivity.
Qed.

(** C8, as stated, fails: with a call id taken from the text, the keyword
    "portal" alone does not give the Web Portal channel, and a keyword of
    the text ("tasora") wins over the channel token of the call id. *)
Lemma portal_keyword_ignored :
  Str.contains "portal" (Str.lower "TW_XYZ_1 portal") = true /\
  _extract_call_id "TW_XYZ_1 portal" 1 = "TW_XYZ_1" /\
  _extract_channel "TW_XYZ_1 portal" (_extract_call_id "TW_XYZ_1 portal" 1) = "Unknown" /\
  _extract_channel "TW_WEB_001 tasora" (_extract_call_id "TW_WEB_001 tasora" 1) = "TASORA".
Proof. vm_compute. repeat split. Qed.

(** C8, amended. The channel is that of the first rule that fires, in the
    order TASORA, Web Portal, Mobile App, Target, SMS/Bot/IVR: a rule fires
    when the upper-cased call id contains its token (TASORA, WEB, APP,
    TARGET, SMS) or the lower-cased text contains one of its keywords
    (tasora; web portal, website; mobile app, application; target; sms,
    bot, ivr); with no rule firing it is Unknown.  This holds for every
    text and call id; in particular the channel of a section is given by
    these rules on the identifier found in it, and, when no identifier
    pattern occurs in the section, so that the call id is synthesized, by
    the keyword priority tasora, web or portal, app or mobile, target, sms
    or bot or ivr. *)
Theorem extract_channel_rules (text call_id : string) (call_number : nat) :
  _extract_channel text call_id =
    channel_by_rules (Str.upper call_id) (Str.lower text) /\
  _extract_channel text (_extract_call_id text call_number) =
    match first_call_id call_id_patterns text with
    | Some found => channel_by_rules (Str.upper found) (Str.lower text)
    | None => channel_by_keywords (Str.lower text)
    end.
Proof.
  split; [apply extract_channel_by_rules|].
  destruct (first_call_id call_id_patterns text) as [found|] eqn:Hfound.
  - unfold _extract_call_id. rewrite Hfound. apply extract_channel_by_rules.
  - apply extract_channel_synthesized. exact Hfound.
Qed.


(** ** More on strings *)

Lemma take_drop (n : nat) (s : string) : Str.take n s ++ Str.drop n s = s.
Proof.
  revert s. induction n as [|n IH]; intros [|c s]; try reflexivity.
  cbn [Str.take Str.drop]. rewrite app_cons, IH. reflexivity.
Qed.

Lemma contains_slice (i n : nat) (s : string) : Str.contains (Str.slice i n s) s = true.
Proof.
  apply contains_spec. exists (Str.take i s), (Str.drop n (Str.drop i s)).
  unfold Str.slice. rewrite take_drop, take_drop. reflexivity.
Qed.

Lemma lstrip_suffix (s : string) : exists a, s = a ++ Str.lstrip s.
Proof.
  induction s as [|c s [a Ha]]; [exists ""; reflexivity|].
  cbn [Str.lstrip]. destruct (Char.is_space c).
  - exists (String c a). rewrite app_cons. f_equal. exact Ha.
  - exists "". reflexivity.
Qed.

Lemma rstrip_prefix (s : string) : exists b, s = Str.rstrip s ++ b.
Proof.
  induction s as [|c s [b Hb]]; [exists ""; reflexivity|].
  cbn [Str.rstrip]. destruct (Str.rstrip s) as [|d t] eqn:Hr.
  - destruct (Char.is_space c).
    + exists (String c s). reflexivity.
    + exists s. reflexivity.
  - exists b. rewrite app_cons. f_equal. exact Hb.
Qed.

Lemma app_empty_r (s : string) : s ++ "" = s.
Proof. induction s as [|c s IH]; [reflexivity|]. rewrite app_cons, IH. reflexivity. Qed.

Lemma contains_strip (s : string) : Str.contains (Str.strip s) s = true.
Proof.
  apply contains_spec. unfold Str.strip.
  destruct (lstrip_suffix s) as [a Ha]. destruct (rstrip_prefix (Str.lstrip s)) as [b Hb].
  exists a, b. rewrite <- Hb. exact Ha.
Qed.

Lemma contains_refl (s : string) : Str.contains s s = true.
Proof. apply contains_spec. exists "", "". rewrite app_empty_r. reflexivity. Qed.

Lemma contains_empty (s : string) : Str.contains "" s = true.
Proof. apply contains_spec. exists "", s. reflexivity. Qed.

Lemma contains_group (g : nat) (s : string) (mt : nat * nat * list (nat * (nat * nat))) :
  Str.contains (group g s mt) s = true.
Proof.
  destruct mt as [[i n] cs]. unfold group.
  destruct (lookup_cap g cs) as [[o len]|]; [apply contains_slice | apply contains_empty].
Qed.

(** ** Dates and labelled fields *)

(** The cleaned date is cut out of the raw date: [_clean_date] never
    reformats and never adds a character. *)
Theorem clean_date_substring (date : string) :
  Str.contains (_clean_date date) date = true.
Proof.
  unfold _clean_date. destruct (Str.is_empty date) eqn:He.
  - apply contains_empty.
  - assert (H : forall ps found, first_date ps date = Some found ->
                  Str.contains found date = true).
    { induction ps as [|p ps IH]; intros found; cbn [first_date]; [discriminate|].
      destruct (Re.search false p date) as [mt|]; [|apply IH].
      intros [= <-]. apply contains_group. }
    destruct (first_date date_patterns date) as [found|] eqn:Hf.
    + apply (H _ _ Hf).
    + apply contains_strip.
Qed.

(** Every label [_parse_single_call] looks for is plain. *)
Lemma parse_labels_plain :
  forallb (forallb plain_label)
    [ ["date:"; "timestamp:"; "time:"];
      ["category:"; "issue type:"; "type:"; "problem:"];
      ["severity:"; "priority:"; "level:"];
      ["journey type:"; "journey:"; "type:"];
      ["resolution:"; "solution:"; "fix:"; "resolved:"];
      ["impact:"; "effect:"; "consequence:"];
      ["root cause:"; "cause:"; "reason:"] ] = true.
Proof. vm_compute. reflexivity. Qed.

(** For labels made of letters, digits, spaces and colons, as all the
    labels of the program are, the value [_extract_field] returns is cut
    out of the section text. *)
Theorem extract_field_substring (text : string) (field_patterns : list string)
    (Hplain : forallb plain_label field_patterns = true) :
  Str.contains (_extract_field text field_patterns) text = true.
Proof.
  clear Hplain. induction field_patterns as [|p ps IH]; cbn [_extract_field].
  - apply contains_empty.
  - destruct (Re.search true (field_regex p) text) as [mt|]; [|exact IH].
    apply (contains_trans _ (group 1 text mt)); [apply contains_strip | apply contains_group].
Qed.

Lemma extract_field_substring_witness :
  forallb plain_label ["severity:"; "priority:"; "level:"] = true /\
  Str.contains (_extract_field "Call 7 Priority:  High " ["severity:"; "priority:"; "level:"])
               "Call 7 Priority:  High " = true.
Proof.
  assert (H : forallb plain_label ["severity:"; "priority:"; "level:"] = true)
    by (vm_compute; reflexivity).
  split; [exact H | exact (extract_field_substring _ _ H)].
Defined.

(** ** Journey type *)

Lemma lower_upper (c : ascii) : Char.lower (Char.upper c) = Char.lower c.
Proof. destruct c as [[] [] [] [] [] [] [] []]; reflexivity. Qed.

Lemma lower_lower (c : ascii) : Char.lower (Char.lower c) = Char.lower c.
Proof. destruct c as [[] [] [] [] [] [] [] []]; reflexivity. Qed.

Lemma lower_title_from (b : bool) (s : string) :
  Str.lower (Str.title_from b s) = Str.lower s.
Proof.
  unfold Str.lower. revert b. induction s as [|c s IH]; intros b; [reflexivity|].
  cbn [Str.title_from]. destruct (Char.is_lower c); [|destruct (Char.is_upper c)];
    cbn [Str.map]; rewrite IH; f_equal; destruct b; auto using lower_upper, lower_lower.
Qed.

Lemma lower_title (s : string) : Str.lower (Str.title s) = Str.lower s.
Proof. apply lower_title_from. Qed.

Lemma title_empty (s : string) : Str.title s = "" -> s = "".
Proof.
  unfold Str.title. destruct s as [|c s]; [reflexivity|]. cbn [Str.title_from].
  destruct (Char.is_lower c); [discriminate|]. destruct (Char.is_upper c); discriminate.
Qed.

(** A journey type that mentions "non-tangible" is classified "Tangible":
    the test for "tangible" comes first and "non-tangible" contains it. *)
Theorem clean_journey_type_non_tangible (journey_type : string)
    (Hnon : Str.contains "non-tangible" (Str.lower (Str.strip journey_type)) = true) :
  _clean_journey_type journey_type = "Tangible".
Proof.
  unfold _clean_journey_type. destruct journey_type as [|c s]; [discriminate|].
  cbn [Str.is_empty]. cbv zeta. rewrite lower_title.
  rewrite (contains_trans "tangible" "non-tangible" _ eq_refl Hnon). reflexivity.
Qed.

Lemma clean_journey_type_non_tangible_witness :
  Str.contains "non-tangible" (Str.lower (Str.strip " Non-Tangible ")) = true /\
  _clean_journey_type " Non-Tangible " = "Tangible".
Proof.
  assert (H : Str.contains "non-tangible" (Str.lower (Str.strip " Non-Tangible ")) = true)
    by (vm_compute; reflexivity).
  split; [exact H | exact (clean_journey_type_non_tangible " Non-Tangible " H)].
Defined.

(** [_clean_journey_type] returns "Non-tangible" only as the default of a
    value that is not empty but blank. *)
Theorem clean_journey_type_default_only (journey_type : string)
    (Hres : _clean_journey_type journey_type = "Non-tangible") :
  journey_type <> "" /\ Str.strip journey_type = "".
Proof.
  revert Hres. unfold _clean_journey_type.
  destruct journey_type as [|c s]; [discriminate|]. cbn [Str.is_empty]. cbv zeta.
  set (j := Str.title (Str.strip (String c s))).
  destruct (Str.contains "tangible" (Str.lower j)) eqn:Ht; [discriminate|].
  destruct (Str.contains "non-tangible" (Str.lower j)) eqn:Hn.
  { rewrite (contains_trans "tangible" "non-tangible" _ eq_refl Hn) in Ht. discriminate. }
  destruct (Str.is_empty j) eqn:He.
  - intros _. split; [discriminate|]. apply title_empty.
    fold j. destruct j; [reflexivity | discriminate].
  - intros Hj. rewrite Hj in Ht. vm_compute in Ht. discriminate.
Qed.

Lemma clean_journey_type_default_only_witness :
  _clean_journey_type "  " = "Non-tangible" /\ "  " <> "" /\ Str.strip "  " = "".
Proof.
  assert (H : _clean_journey_type "  " = "Non-tangible") by (vm_compute; reflexivity).
  split; [exact H | exact (clean_journey_type_default_only "  " H)].
Defined.

(** ** Synthesized identifiers *)

Lemma of_uint_D0 (d : Decimal.uint) : Nat.of_uint (Decimal.D0 d) = Nat.of_uint d.
Proof. reflexivity. Qed.

Lemma parse_zeros (k : nat) (s : string) (d : Decimal.uint) :
  NilEmpty.uint_of_string s = Some d ->
  exists d', NilEmpty.uint_of_string (Str.replicate k "0" ++ s) = Some d' /\
             Nat.of_uint d' = Nat.of_uint d.
Proof.
  intros Hs. induction k as [|k (d' & Hd' & Heq)].
  - exists d. split; [exact Hs | reflexivity].
  - exists (Decimal.D0 d'). cbn [Str.replicate]. rewrite app_cons.
    cbn [NilEmpty.uint_of_string]. rewrite Hd'. split; [reflexivity|].
    rewrite of_uint_D0. exact Heq.
Qed.

Lemma pad3_parse (n : nat) : parse_decimal (pad3 n) = Some n.
Proof.
  unfold parse_decimal, pad3, decimal.
  destruct (parse_zeros (3 - String.length (NilEmpty.string_of_uint (Nat.to_uint n)))
              _ _ (NilEmpty.usu (Nat.to_uint n))) as (d' & -> & Heq).
  cbn [fmap option_fmap option_map]. rewrite Heq, Unsigned.of_to. reflexivity.
Qed.

Lemma pad3_inj (n m : nat) : pad3 n = pad3 m -> n = m.
Proof.
  intros H. assert (Hn := pad3_parse n). rewrite H, pad3_parse in Hn. congruence.
Qed.

Lemma string_length_app (a b : string) :
  String.length (a ++ b) = String.length a + String.length b.
Proof.
  induction a as [|c a IH]; [reflexivity|].
  rewrite app_cons. cbn [String.length]. rewrite IH. reflexivity.
Qed.

Lemma replicate_length (k : nat) (c : ascii) : String.length (Str.replicate k c) = k.
Proof. induction k as [|k IH]; [reflexivity|]. cbn. rewrite IH. reflexivity. Qed.

(** The zero-padded sequence number is made of at least three digits and
    reads back as the number it was made from, so that different numbers
    never give the same text. *)
Theorem pad3_round_trip (n : nat) :
  parse_decimal (pad3 n) = Some n /\
  all_digits (pad3 n) = true /\
  3 <= String.length (pad3 n) /\
  forall m : nat, pad3 m = pad3 n -> m = n.
Proof.
  split; [apply pad3_parse|]. split; [apply all_digits_pad3|]. split.
  - unfold pad3. rewrite string_length_app, replicate_length. lia.
  - intros m. apply pad3_inj.
Qed.



(** ** Synthesized identifiers, continued *)

Lemma extract_call_id_synthesized (text : string) (n : nat) :
  first_call_id call_id_patterns text = None ->
  exists ch, In ch synthesized_channels /\ _extract_call_id text n = synthesized ch n.
Proof.
  intros H. unfold _extract_call_id. rewrite H. cbv zeta. unfold synthesized_channels.
  repeat match goal with
         | |- context [if ?b then _ else _] => destruct b
         end;
    first [ exists "TASORA"; split; [cbn; tauto | reflexivity]
          | exists "WEB"; split; [cbn; tauto | reflexivity]
          | exists "APP"; split; [cbn; tauto | reflexivity]
          | exists "TARGET"; split; [cbn; tauto | reflexivity]
          | exists "SMS"; split; [cbn; tauto | reflexivity]
          | exists "UNKNOWN"; split; [cbn; tauto | reflexivity] ].
Qed.

Lemma synthesized_inj (ch ch' : string) (n m : nat) :
  In ch synthesized_channels -> In ch' synthesized_channels ->
  synthesized ch n = synthesized ch' m -> n = m.
Proof.
  unfold synthesized_channels, synthesized. cbn [In].
  intros Hc Hc' Heq.
  assert (Hp : pad3 n = pad3 m).
  { repeat (destruct Hc as [<- | Hc]; [|]); try contradiction;
      repeat (destruct Hc' as [<- | Hc']; [|]); try contradiction;
      repeat rewrite app_cons in Heq; rewrite ?app_empty in Heq;
      repeat (rewrite app_cons in Heq); try discriminate Heq;
      repeat (injection Heq as Heq); try discriminate; try exact Heq. }
  apply pad3_inj. exact Hp.
Qed.

(** Two sections without an identifier of their own get different call
    ids whenever their sequence numbers differ. *)
Theorem synthesized_call_id_unique (text1 text2 : string) (n m : nat)
    (H1 : first_call_id call_id_patterns text1 = None)
    (H2 : first_call_id call_id_patterns text2 = None)
    (Hnm : n <> m) :
  _extract_call_id text1 n <> _extract_call_id text2 m.
Proof.
  destruct (extract_call_id_synthesized text1 n H1) as (c1 & Hc1 & ->).
  destruct (extract_call_id_synthesized text2 m H2) as (c2 & Hc2 & ->).
  intros Heq. apply Hnm. apply (synthesized_inj c1 c2 n m Hc1 Hc2 Heq).
Qed.

Lemma synthesized_call_id_unique_witness :
  first_call_id call_id_patterns "the web page is down" = None /\
  first_call_id call_id_patterns "the portal is slow" = None /\
  1 <> 2 /\
  _extract_call_id "the web page is down" 1 <> _extract_call_id "the portal is slow" 2.
Proof.
  assert (H1 : first_call_id call_id_patterns "the web page is down" = None)
    by (vm_compute; reflexivity).
  assert (H2 : first_call_id call_id_patterns "the portal is slow" = None)
    by (vm_compute; reflexivity).
  assert (Hnm : 1 <> 2) by lia.
  split; [exact H1 | split; [exact H2 | split; [exact Hnm |]]].
  exact (synthesized_call_id_unique _ _ 1 2 H1 H2 Hnm).
Defined.



(** ** Masked records, field by field *)

Transparent zero_counts mask_body add_counts.

Lemma zero_counts_unfold :
  zero_counts = list_to_map (List.map (fun e => (fst e, 0)) pii_patterns).
Proof. reflexivity. Qed.

Lemma add_counts_unfold (totals found : gmap string nat) :
  add_counts totals found = map_fold add_count totals found.
Proof. reflexivity. Qed.

Lemma mask_body_unfold (text : string) :
  mask_body text =
  (_mask_telecom_specific (fst (fold_left apply_category pii_patterns (text, zero_counts))),
   snd (fold_left apply_category pii_patterns (text, zero_counts))).
Proof.
  unfold mask_body. destruct (fold_left apply_category pii_patterns (text, zero_counts)).
  reflexivity.
Qed.

Lemma mask_str_unfold (text : string) :
  mask_str text = if Str.is_empty text then (text, zero_counts) else mask_body text.
Proof. reflexivity. Qed.

Opaque zero_counts mask_body add_counts mask_str.

Lemma mask_field_value (masked masked' : gmap string value)
    (pii_found pii_found' : gmap string nat) (field : string) :
  maskable_at masked field = true ->
  mask_field (masked, pii_found) field = inl (masked', pii_found') ->
  masked' !! field = mask_value <$> masked !! field.
Proof.
  unfold maskable_at, mask_field. destruct (masked !! field) as [v|] eqn:Hv.
  - destruct v as [s | n | | items | members]; cbn [maskable truthy].
    + intros _. destruct s as [|c s]; cbn [Str.is_empty negb].
      * intros [= <- _]. rewrite Hv. reflexivity.
      * rewrite mask_text_string. cbn [bind ret fst snd fmap option_fmap option_map mask_value].
        generalize (mask_str (String c s)). intros r Hr. injection Hr as <- _.
        rewrite lookup_insert_eq. reflexivity.
    + intros H. apply negb_true_iff in H. rewrite H. intros [= <- _].
      rewrite Hv. reflexivity.
    + intros _ [= <- _]. rewrite Hv. reflexivity.
    + intros H. apply negb_true_iff in H. rewrite H. intros [= <- _].
      rewrite Hv. reflexivity.
    + intros H. apply negb_true_iff in H. rewrite H. intros [= <- _].
      rewrite Hv. reflexivity.
  - intros _ [= <- _]. rewrite Hv. reflexivity.
Qed.

Lemma mask_fields_values (fields : list string) :
  NoDup fields ->
  forall (masked masked' : gmap string value) (pii_found pii_found' : gmap string nat),
    forallb (maskable_at masked) fields = true ->
    mask_fields fields (masked, pii_found) = inl (masked', pii_found') ->
    forall k : string, In k fields -> masked' !! k = mask_value <$> masked !! k.
Proof.
  induction 1 as [|f fields Hnotin Hnodup IH]; intros m m' c c' Hok Hm k Hk;
    [destruct Hk|].
  cbn [forallb] in Hok. apply andb_true_iff in Hok as [Hf Hrest].
  cbn [mask_fields] in Hm.
  destruct (mask_field (m, c) f) as [[m1 c1]|e] eqn:Hm1; cbn [bind] in Hm; [|discriminate].
  assert (Hsame : forall g, g <> f -> m1 !! g = m !! g)
    by (intros g Hg; apply (mask_field_frame _ _ _ _ _ Hm1); exact Hg).
  assert (Hnotin' : ~ In f fields) by (rewrite <- list_elem_of_In; exact Hnotin).
  destruct Hk as [<- | Hk].
  - rewrite (mask_fields_frame _ _ _ _ _ Hm f Hnotin').
    apply (mask_field_value _ _ _ _ _ Hf Hm1).
  - assert (Hkf : k <> f) by (intros ->; contradiction).
    rewrite <- (Hsame k Hkf). apply (IH m1 m' c1 c'); [|exact Hm | exact Hk].
    apply forallb_forall. intros g Hg. unfold maskable_at.
    rewrite Hsame by (intros ->; contradiction).
    rewrite forallb_forall in Hrest. apply (Hrest g Hg).
Qed.

(** Masking works field by field: each of [transcript], [resolution],
    [impact], [root_cause] and [call_id] that holds a string holds its own
    masked text afterwards, every other entry is as before, and no key is
    added or removed. *)
Theorem mask_single_fieldwise (transcript : gmap string value)
    (Hok : maskable_record transcript = true) :
  exists masked : gmap string value,
    _mask_single_transcript transcript = inl (masked, fields_tally transcript) /\
    (forall k : string, In k masked_fields ->
       masked !! k = mask_value <$> transcript !! k) /\
    (forall k : string, ~ In k masked_fields -> masked !! k = transcript !! k) /\
    dom masked = dom transcript.
Proof.
  destruct (mask_single_total transcript Hok) as [masked Hm].
  exists masked. split; [exact Hm|].
  assert (Hframe := mask_single_frame _ _ _ Hm).
  assert (Hval : forall k, In k masked_fields -> masked !! k = mask_value <$> transcript !! k).
  { revert Hm. unfold _mask_single_transcript.
    destruct (mask_fields fields_to_mask (transcript, zero_counts)) as [[m1 c1]|e] eqn:Hf;
      cbn [bind]; [|discriminate].
    unfold maskable_record, masked_fields in Hok. rewrite forallb_app in Hok.
    apply andb_true_iff in Hok as [Hfields Hid]. cbn [forallb] in Hid.
    rewrite andb_true_r in Hid.
    assert (Hcid : m1 !! "call_id" = transcript !! "call_id")
      by (apply (mask_fields_frame _ _ _ _ _ Hf); vm_compute; intuition discriminate).
    assert (H4 := mask_fields_values _ fields_to_mask_nodup _ _ _ _ Hfields Hf).
    intros Hm k Hk. unfold masked_fields in Hk. apply in_app_or in Hk as [Hk | [<- | []]].
    - assert (Hne : "call_id" <> k)
        by (intros <-; revert Hk; vm_compute; intuition discriminate).
      destruct (m1 !! "call_id") as [v|].
      + destruct (_mask_text v) as [r|e]; cbn [bind] in Hm; [|discriminate].
        injection Hm as <- _. rewrite lookup_insert_ne by exact Hne. apply (H4 k Hk).
      + injection Hm as <- _. apply (H4 k Hk).
    - rewrite Hcid in Hm. unfold maskable_at in Hid.
      destruct (transcript !! "call_id") as [v|] eqn:Hv.
      + destruct v as [s | n | | items | members]; cbn [maskable truthy] in Hid.
        * rewrite mask_text_string in Hm. cbn [bind ret fst] in Hm.
          revert Hm. cbn [fmap option_fmap option_map mask_value].
          generalize (mask_str s). intros r Hm.
          injection Hm as <- _. rewrite lookup_insert_eq. reflexivity.
        * apply negb_true_iff in Hid. unfold _mask_text in Hm. cbn [truthy] in Hm.
          rewrite Hid in Hm. cbn [negb bind ret fst] in Hm. injection Hm as <- _.
          rewrite lookup_insert_eq. reflexivity.
        * unfold _mask_text in Hm. cbn [truthy negb bind ret fst] in Hm.
          injection Hm as <- _. rewrite lookup_insert_eq. reflexivity.
        * apply negb_true_iff in Hid. unfold _mask_text in Hm. cbn [truthy] in Hm.
          rewrite Hid in Hm. cbn [negb bind ret fst] in Hm. injection Hm as <- _.
          rewrite lookup_insert_eq. reflexivity.
        * apply negb_true_iff in Hid. unfold _mask_text in Hm. cbn [truthy] in Hm.
          rewrite Hid in Hm. cbn [negb bind ret fst] in Hm. injection Hm as <- _.
          rewrite lookup_insert_eq. reflexivity.
      + injection Hm as <- _. rewrite Hcid. reflexivity. }
  split; [exact Hval|]. split; [exact Hframe|].
  apply set_eq. intros k. rewrite !elem_of_dom.
  destruct (In_dec string_dec k masked_fields) as [Hin | Hout].
  - rewrite (Hval k Hin). destruct (transcript !! k); cbn; split; intros [x Hx];
      try discriminate; eexists; reflexivity.
  - rewrite (Hframe k Hout). reflexivity.
Qed.

Lemma mask_single_fieldwise_witness :
  maskable_record sample_record = true /\
  exists masked : gmap string value,
    _mask_single_transcript sample_record = inl (masked, fields_tally sample_record) /\
    (forall k : string, In k masked_fields ->
       masked !! k = mask_value <$> sample_record !! k) /\
    (forall k : string, ~ In k masked_fields -> masked !! k = sample_record !! k) /\
    dom masked = dom sample_record.
Proof.
  assert (Hok : maskable_record sample_record = true) by (vm_compute; reflexivity).
  split; [exact Hok | exact (mask_single_fieldwise sample_record Hok)].
Defined.

(** ** Tallies *)

Lemma add_count_dom (k : string) (n : nat) (counts : gmap string nat) :
  k ∈ dom counts -> dom (add_count k n counts) = dom counts.
Proof. intros Hk. unfold add_count. rewrite dom_insert_L. set_solver. Qed.

Lemma add_counts_dom (totals found : gmap string nat) :
  dom (add_counts totals found) = dom totals ∪ dom found.
Proof.
  rewrite add_counts_unfold.
  apply (map_fold_weak_ind (fun r m => dom r = dom totals ∪ dom m)).
  - rewrite dom_empty_L. set_solver.
  - intros i x m r _ Hr. unfold add_count. rewrite !dom_insert_L, Hr. set_solver.
Qed.


Lemma pii_types_in_zero :
  Forall (fun e : string * list regex => fst e ∈ dom zero_counts) pii_patterns.
Proof. apply (bool_decide_unpack _). vm_compute. exact I. Qed.

Lemma mask_body_dom (text : string) : dom (snd (mask_body text)) = dom zero_counts.
Proof.
  rewrite mask_body_unfold. cbn [snd].
  assert (H : forall (l : list (string * list regex)) acc,
             Forall (fun e => fst e ∈ dom zero_counts) l ->
             dom (snd acc) = dom zero_counts ->
             dom (snd (fold_left apply_category l acc)) = dom zero_counts).
  { induction l as [|e l IH]; intros acc Hl Hacc; [exact Hacc|].
    inversion Hl as [|? ? He Hl']; subst. cbn [fold_left]. apply IH; [exact Hl'|].
    unfold apply_category. generalize (replacements !!! e.1). intros repl.
    revert acc Hacc. induction (snd e) as [|p ps IHp]; intros acc Hacc; [exact Hacc|].
    cbn [fold_left]. apply IHp. destruct acc as [t c]. cbn [apply_pattern snd] in *.
    rewrite add_count_dom; [exact Hacc | rewrite Hacc; exact He]. }
  apply (H pii_patterns (text, zero_counts) pii_types_in_zero eq_refl).
Qed.

Lemma field_counts_dom (t : gmap string value) (c : gmap string nat) (f : string) :
  dom c = dom zero_counts -> dom (field_counts t c f) = dom zero_counts.
Proof.
  intros Hc. unfold field_counts. destruct (t !! f) as [[s | n | | items | members]|]; try exact Hc.
  destruct (Str.is_empty s); [exact Hc|].
  rewrite add_counts_dom, Hc, mask_body_dom. set_solver.
Qed.

Lemma fields_tally_dom (t : gmap string value) : dom (fields_tally t) = dom zero_counts.
Proof.
  unfold fields_tally. generalize (eq_refl (dom zero_counts)).
  generalize zero_counts at 1 3. induction fields_to_mask as [|f fs IH]; intros c Hc.
  - exact Hc.
  - cbn [fold_left]. apply IH. apply field_counts_dom. exact Hc.
Qed.

(** Every tally has exactly the eight category names as keys, for a text
    as for a record: [counts[pii_type] += n] never meets a missing key. *)
Theorem tally_keys (text : string) (transcript : gmap string value) :
  dom (snd (mask_str text)) = list_to_set (List.map fst pii_patterns) /\
  dom (fields_tally transcript) = list_to_set (List.map fst pii_patterns) /\
  List.length pii_patterns = 8.
Proof.
  assert (Hz : dom zero_counts = list_to_set (List.map fst pii_patterns)).
  { rewrite zero_counts_unfold, dom_list_to_map_L. f_equal. }
  split; [|split; [rewrite fields_tally_dom; exact Hz | reflexivity]].
  rewrite mask_str_unfold. destruct (Str.is_empty text); [exact Hz|].
  rewrite mask_body_dom. exact Hz.
Qed.








(** ** Cleaning of records *)

Opaque _clean_category _clean_severity _clean_journey_type _clean_date
       _clean_conversation _clean_resolution _clean_impact.

Lemma clean_value_text (f : string -> string) (e : failure) (v : value) :
  f "" = "" -> maskable v = true -> clean_value f e v = inl (VStr (f (text_of v))).
Proof.
  intros Hf. unfold clean_value.
  destruct v as [s | n | | items | members]; cbn [maskable truthy text_of].
  - intros _. destruct s; cbn [Str.is_empty negb]; [rewrite Hf|]; reflexivity.
  - intros H. rewrite H. rewrite Hf. reflexivity.
  - intros _. rewrite Hf. reflexivity.
  - intros H. rewrite H. rewrite Hf. reflexivity.
  - intros H. rewrite H. rewrite Hf. reflexivity.
Qed.

Lemma clean_value_inl (f : string -> string) (e : failure) (v w : value) :
  clean_value f e v = inl w -> maskable v = true.
Proof.
  unfold clean_value.
  destruct v as [s | n | | items | members]; cbn [maskable truthy]; try reflexivity.
  - destruct (negb (n =? 0)%Z); [discriminate | reflexivity].
  - destruct items; [reflexivity | discriminate].
  - destruct members; [reflexivity | discriminate].
Qed.

Lemma clean_value_string (f : string -> string) (e : failure) (v w : value) :
  clean_value f e v = inl w -> exists s : string, w = VStr s.
Proof.
  unfold clean_value. destruct (negb (truthy v)); [intros [= <-]; eexists; reflexivity|].
  destruct v; try discriminate. intros [= <-]. eexists; reflexivity.
Qed.

Lemma clean_fields_frame (todo : list (string * (value -> value + failure))) :
  forall (t cleaned cleaned' : gmap string value),
    clean_fields todo t cleaned = inl cleaned' ->
    forall k : string, ~ In k (List.map fst todo) -> cleaned' !! k = cleaned !! k.
Proof.
  induction todo as [|[key clean] todo IH]; intros t c c' H k Hk; cbn [clean_fields] in H.
  - injection H as <-. reflexivity.
  - destruct (clean (get_or_empty t key)) as [v|e]; cbn [and_then] in H; [|discriminate].
    rewrite (IH _ _ _ H k) by (intros Hin; apply Hk; right; exact Hin).
    apply lookup_insert_ne. intros <-. apply Hk. left. reflexivity.
Qed.

Lemma cleaners_total (t : gmap string value) :
  cleanable t = true ->
  forall (c : gmap string value),
  exists c', clean_fields cleaners t c = inl c' /\
    Forall (fun e => c' !! fst e = Some (VStr (snd e (text_of (get_or_empty t (fst e))))))
           text_cleaners.
Proof.
  Transparent _clean_category _clean_severity _clean_journey_type _clean_date
       _clean_conversation _clean_resolution _clean_impact.
  unfold cleanable, cleaned_fields, cleaners. cbn [List.map fst forallb].
  intros H. repeat (apply andb_true_iff in H as [? H]).
  intros c. cbn [clean_fields].
  repeat (rewrite clean_value_text by (reflexivity || assumption); cbn [and_then]).
  eexists. split; [reflexivity|].
  unfold text_cleaners.
  repeat (constructor; [cbn [fst snd];
    repeat (rewrite lookup_insert_ne by discriminate); apply lookup_insert_eq|]).
  constructor.
  Opaque _clean_category _clean_severity _clean_journey_type _clean_date
       _clean_conversation _clean_resolution _clean_impact.
Qed.

(** Cleaning sets seven fields and leaves the rest: after it each of
    [category], [severity], [journey_type], [date], [transcript],
    [resolution] and [impact] is present and holds the cleaned text of what
    the input held (of the empty string when the field was missing or
    falsy), and every other entry is as before. *)
Theorem clean_single_fieldwise (transcript : gmap string value)
    (Hok : cleanable transcript = true) :
  exists cleaned : gmap string value,
    _clean_single_transcript transcript = inl cleaned /\
    Forall (fun e => cleaned !! fst e =
                     Some (VStr (snd e (text_of (get_or_empty transcript (fst e))))))
           text_cleaners /\
    (forall k : string, ~ In k cleaned_fields -> cleaned !! k = transcript !! k) /\
    List.map fst text_cleaners = cleaned_fields.
Proof.
  destruct (cleaners_total transcript Hok transcript) as (c' & Hc & Hall).
  exists c'. split; [exact Hc|]. split; [exact Hall|]. split; [|reflexivity].
  apply (clean_fields_frame _ _ _ _ Hc).
Qed.

Lemma clean_single_fieldwise_witness :
  cleanable sparse_record = true /\
  exists cleaned : gmap string value,
    _clean_single_transcript sparse_record = inl cleaned /\
    Forall (fun e => cleaned !! fst e =
                     Some (VStr (snd e (text_of (get_or_empty sparse_record (fst e))))))
           text_cleaners /\
    (forall k : string, ~ In k cleaned_fields -> cleaned !! k = sparse_record !! k) /\
    List.map fst text_cleaners = cleaned_fields.
Proof.
  assert (Hok : cleanable sparse_record = true) by (vm_compute; reflexivity).
  split; [exact Hok | exact (clean_single_fieldwise sparse_record Hok)].
Defined.

Lemma clean_loop_ok (todo : list (gmap string value)) :
  forall acc : list (gmap string value),
    existsb record_unclean todo = false ->
    exists out : list (gmap string value),
      clean_loop todo acc = inl (acc ++ out)%list /\
      Forall2 (fun t c => _clean_single_transcript t = inl c) todo out.
Proof.
  induction todo as [|t todo IH]; intros acc Hok; cbn [clean_loop existsb] in *.
  - exists []. rewrite app_nil_r. split; [reflexivity | constructor].
  - apply orb_false_iff in Hok as [Ht Hrest]. unfold record_unclean in Ht.
    destruct (_clean_single_transcript t) as [c|e] eqn:Hc; [|discriminate].
    cbn [and_then]. destruct (c !! "call_id") as [v|]; [|discriminate]. cbn [and_then].
    destruct (IH (acc ++ [c])%list Hrest) as (out & Hout & Hall).
    exists (c :: out). split; [|constructor; [exact Hc | exact Hall]].
    rewrite Hout, <- app_assoc. reflexivity.
Qed.


Lemma clean_fields_cons (key : string) (clean : value -> value + failure)
    (todo : list (string * (value -> value + failure))) (t c : gmap string value) :
  clean_fields ((key, clean) :: todo) t c =
  and_then (clean (get_or_empty t key)) (fun v => clean_fields todo t (<[key := v]> c)).
Proof. reflexivity. Qed.

(** A cleaned record holds a string as its category. *)
Lemma clean_single_category (t c : gmap string value) :
  _clean_single_transcript t = inl c -> exists s : string, c !! "category" = Some (VStr s).
Proof.
  unfold _clean_single_transcript, cleaners. rewrite clean_fields_cons.
  destruct (clean_value _clean_category (Raised TypeError) (get_or_empty t "category"))
    as [v|e] eqn:Hv; cbn [and_then]; [|discriminate].
  intros H. apply clean_value_string in Hv as [s ->]. exists s.
  rewrite (clean_fields_frame _ _ _ _ H) by (cbn [List.map fst In]; intuition discriminate).
  apply lookup_insert_eq.
Qed.

Lemma clean_single_channel (t c : gmap string value) :
  _clean_single_transcript t = inl c -> c !! "channel" = t !! "channel".
Proof.
  intros H. apply (clean_fields_frame _ _ _ _ H). vm_compute. intuition discriminate.
Qed.

(** The metadata of the cleaned records can be built when no channel of
    the batch is an array or an object. *)
Lemma cleaned_metadata (input out : list (gmap string value)) :
  Forall2 (fun t c => _clean_single_transcript t = inl c) input out ->
  metadata_hashable out = channels_hashable input.
Proof.
  intros H. unfold metadata_hashable, channels_hashable.
  induction H as [|t c ts cs Hc _ IH]; cbn [forallb]; [reflexivity|].
  rewrite (clean_single_channel _ _ Hc).
  destruct (clean_single_category _ _ Hc) as [s ->]. cbn [truthy hashable].
  destruct (hashable (default (VStr "Unknown") (t !! "channel"))); cbn [andb]; [|reflexivity].
  destruct (negb (Str.is_empty s)); exact IH.
Qed.

(** What [clean_parsed_data] does when no record raises. *)
Lemma clean_parsed_data_ok (input : list (gmap string value)) :
  existsb record_unclean input = false ->
  exists out : list (gmap string value),
    Forall2 (fun t c => _clean_single_transcript t = inl c) input out /\
    metadata_hashable out = channels_hashable input /\
    clean_parsed_data input =
      if channels_hashable input then (true, Some out) else (false, None).
Proof.
  intros Hok. unfold clean_parsed_data.
  destruct (clean_loop_ok input [] Hok) as (out & -> & Hall). cbn [app].
  exists out. split; [exact Hall|]. split; [exact (cleaned_metadata _ _ Hall)|].
  rewrite (cleaned_metadata _ _ Hall). reflexivity.
Qed.


(** ** From the parser to the masker *)

Lemma parse_single_all_text (text : string) (call_number : nat) :
  all_text (_parse_single_call text call_number) = true.
Proof.
  unfold _parse_single_call. cbv zeta.
  generalize (_extract_call_id text call_number). intros call_id.
  generalize (_extract_channel text call_id). intros channel.
  generalize (_extract_conversation text). intros conversation.
  repeat match goal with
         | |- context [_extract_field text ?l] => generalize (_extract_field text l); intros ?
         end.
  unfold all_text, text_fields, holds_text. cbn [forallb list_to_map foldr].
  repeat (rewrite lookup_insert_eq || rewrite lookup_insert_ne by discriminate).
  reflexivity.
Qed.

Lemma all_text_cleanable (t : gmap string value) : all_text t = true -> cleanable t = true.
Proof.
  unfold all_text, cleanable, cleaned_fields, cleaners, text_fields, holds_text, get_or_empty.
  cbn [forallb List.map fst]. intros H. repeat (apply andb_true_iff in H as [? H]).
  repeat match goal with
         | Hk : match t !! ?k with _ => _ end = true |- _ =>
             destruct (t !! k) as [[?|?| |?|?]|]; try discriminate Hk; clear Hk
         end.
  reflexivity.
Qed.

Lemma all_text_clean (t : gmap string value) :
  all_text t = true ->
  exists c, _clean_single_transcript t = inl c /\ all_text c = true.
Proof.
  intros Ht. destruct (cleaners_total t (all_text_cleanable t Ht) t) as (c & Hc & Hall).
  exists c. split; [exact Hc|].
  assert (Hframe := clean_fields_frame _ _ _ _ Hc).
  unfold all_text, text_fields, holds_text in *. cbn [forallb] in *.
  repeat (apply andb_true_iff in Ht as [? Ht]).
  unfold text_cleaners in Hall.
  repeat match goal with
         | H : Forall _ (_ :: _) |- _ =>
             let H1 := fresh in let H2 := fresh in
             inversion H as [|? ? H1 H2]; clear H; subst; cbn [fst snd] in H1
         end.
  repeat match goal with
         | H : c !! ?k = Some (VStr _) |- _ => rewrite H; clear H
         end.
  rewrite !Hframe by (vm_compute; intuition discriminate).
  repeat match goal with
         | Hk : match t !! ?k with _ => _ end = true |- _ =>
             destruct (t !! k) as [[?|?| |?|?]|]; try discriminate Hk; clear Hk
         end.
  reflexivity.
Qed.

Lemma all_text_not_unclean (t : gmap string value) :
  all_text t = true -> record_unclean t = false.
Proof.
  intros Ht. destruct (all_text_clean t Ht) as (c & Hc & Hall).
  unfold record_unclean. rewrite Hc.
  unfold all_text, text_fields, holds_text in Hall. cbn [forallb] in Hall.
  apply andb_true_iff in Hall as [Hid _].
  destruct (c !! "call_id") as [v|]; [reflexivity | discriminate].
Qed.

Lemma all_text_not_fails (t : gmap string value) :
  all_text t = true -> record_fails t = false.
Proof.
  intros Ht.
  assert (Hm : maskable_record t = true).
  { unfold all_text, text_fields, holds_text in Ht. cbn [forallb] in Ht.
    repeat (apply andb_true_iff in Ht as [? Ht]).
    unfold maskable_record, masked_fields, fields_to_mask, maskable_at.
    cbn [app forallb].
    repeat match goal with
           | Hk : match t !! ?k with _ => _ end = true |- _ =>
               destruct (t !! k) as [[?|?| |?|?]|]; try discriminate Hk; clear Hk
           end.
    reflexivity. }
  destruct (mask_single_total t Hm) as [masked Hmasked].
  unfold record_fails. rewrite Hmasked.
  unfold all_text, text_fields, holds_text in Ht. cbn [forallb] in Ht.
  apply andb_true_iff in Ht as [Hid _].
  destruct (t !! "call_id") as [v|]; [reflexivity | discriminate].
Qed.

Lemma parse_calls_all_text (calls : list string) :
  forall i : nat, Forall (fun r => all_text r = true) (parse_calls calls i).
Proof.
  induction calls as [|c calls IH]; intros i; cbn [parse_calls]; [constructor|].
  destruct (Nat.ltb _ 100); [apply IH|]. case_bool_decide; [apply IH|].
  constructor; [apply parse_single_all_text | apply IH].
Qed.

(** The records the parser makes never abort the later stages: whatever
    the document, cleaning its parsed records succeeds, masking the
    cleaned records succeeds, and the masked file holds as many records as
    were parsed. *)
Theorem pipeline_never_aborts (pdf_text : string) :
  exists (cleaned : list (gmap string value)) (out : masked_file),
    clean_parsed_data (parse_pdf pdf_text) = (true, Some cleaned) /\
    mask_data cleaned = (true, Some out) /\
    total_transcripts out = List.length (parse_pdf pdf_text).
Proof.
  assert (Hparsed : Forall (fun r => all_text r = true) (parse_pdf pdf_text)).
  { unfold parse_pdf. destruct (Str.is_empty pdf_text); [constructor|].
    apply parse_calls_all_text. }
  revert Hparsed. generalize (parse_pdf pdf_text). intros parsed Hparsed.
  assert (Hclean : existsb record_unclean parsed = false).
  { induction Hparsed as [|r rs Hr _ IH]; [reflexivity|]. cbn [existsb].
    rewrite (all_text_not_unclean r Hr). exact IH. }
  assert (Hchannels : channels_hashable parsed = true).
  { unfold channels_hashable. clear Hclean.
    induction Hparsed as [|r rs Hr _ IH]; [reflexivity|]. cbn [forallb].
    rewrite IH, andb_true_r. unfold all_text, text_fields, holds_text in Hr.
    cbn [forallb] in Hr. apply andb_true_iff in Hr as [_ Hr].
    apply andb_true_iff in Hr as [Hr _].
    destruct (r !! "channel") as [[?|?| |?|?]|]; try discriminate Hr. reflexivity. }
  destruct (clean_parsed_data_ok parsed Hclean) as (cleaned & Hall2 & Hmeta & ->).
  rewrite Hchannels in *. exists cleaned.
  assert (Hcleaned : Forall (fun c => all_text c = true) cleaned).
  { clear Hclean Hchannels Hmeta. induction Hall2 as [|t c ts cs Hc _ IH]; [constructor|].
    inversion Hparsed as [|? ? Ht Hts]; subst. constructor; [|apply IH; exact Hts].
    destruct (all_text_clean t Ht) as (c' & Hc' & Hall). congruence. }
  assert (Hmask : existsb record_fails cleaned = false).
  { clear Hall2 Hmeta. induction Hcleaned as [|r rs Hr _ IH]; [reflexivity|]. cbn [existsb].
    rewrite (all_text_not_fails r Hr). exact IH. }
  destruct (mask_data_ok cleaned Hmask) as (rs & Hall & ->). rewrite Hmeta.
  eexists. split; [reflexivity|]. split; [reflexivity|].
  cbn [total_transcripts]. rewrite length_map.
  rewrite <- (Forall2_length _ _ _ Hall). symmetry. apply (Forall2_length _ _ _ Hall2).
Qed.



(** ** Sections and records *)

Lemma rstrip_idem (s : string) : Str.rstrip (Str.rstrip s) = Str.rstrip s.
Proof.
  induction s as [|c s IH]; [reflexivity|]. cbn [Str.rstrip].
  destruct (Str.rstrip s) as [|d t] eqn:Hr.
  - destruct (Char.is_space c) eqn:Hc; [reflexivity|].
    cbn [Str.rstrip]. rewrite Hc. reflexivity.
  - cbn [Str.rstrip] in *. rewrite IH. reflexivity.
Qed.

Lemma lstrip_head (s : string) :
  match Str.lstrip s with
  | EmptyString => True
  | String c _ => Char.is_space c = false
  end.
Proof.
  induction s as [|c s IH]; [exact I|]. cbn [Str.lstrip].
  destruct (Char.is_space c) eqn:Hc; [exact IH | exact Hc].
Qed.

Lemma lstrip_rstrip_head (s : string) :
  match s with
  | EmptyString => True
  | String c _ => Char.is_space c = false
  end ->
  Str.lstrip (Str.rstrip s) = Str.rstrip s.
Proof.
  destruct s as [|c s]; [reflexivity|]. intros Hc. cbn [Str.rstrip].
  destruct (Str.rstrip s); [rewrite Hc|]; cbn [Str.lstrip]; rewrite Hc; reflexivity.
Qed.

Lemma strip_idem (s : string) : Str.strip (Str.strip s) = Str.strip s.
Proof.
  unfold Str.strip. rewrite (lstrip_rstrip_head _ (lstrip_head s)). apply rstrip_idem.
Qed.

Lemma valid_splits_trimmed (test_splits : list string) :
  Forall (fun piece => 300 < String.length (Str.strip piece)) (valid_splits test_splits).
Proof.
  unfold valid_splits. induction test_splits as [|s ts IH]; cbn [List.filter List.map];
    [constructor|].
  destruct (Nat.ltb_spec 300 (String.length (Str.strip s))); cbn [List.map]; [|exact IH].
  constructor; [rewrite strip_idem; assumption | exact IH].
Qed.

Lemma sections_cases (content : string) :
  sections content = [content] \/
  Forall (fun piece => 300 < String.length (Str.strip piece)) (sections content).
Proof.
  unfold sections.
  assert (H : forall ps calls,
             Forall (fun piece => 300 < String.length (Str.strip piece)) calls ->
             Forall (fun piece => 300 < String.length (Str.strip piece))
                    (fold_left (try_separator content) ps calls)).
  { induction ps as [|p ps IH]; intros calls Hc; cbn [fold_left]; [exact Hc|].
    apply IH. unfold try_separator. cbv zeta.
    destruct (Nat.ltb _ _); [apply valid_splits_trimmed | exact Hc]. }
  specialize (H potential_separators [] (List.Forall_nil _)).
  destruct (fold_left (try_separator content) potential_separators []) as [|c cs];
    [left; reflexivity | right; exact H].
Qed.

Lemma parse_single_nonempty (text : string) (n : nat) : _parse_single_call text n <> ∅.
Proof.
  intros H. assert (Ht := parse_single_all_text text n). rewrite H in Ht.
  unfold all_text, text_fields, holds_text in Ht. cbn [forallb] in Ht.
  rewrite lookup_empty in Ht. discriminate.
Qed.

Lemma parse_calls_long (calls : list string) :
  Forall (fun piece => 100 <= String.length (Str.strip piece)) calls ->
  forall i, parse_calls calls i = number_calls calls i.
Proof.
  induction 1 as [|c calls Hc _ IH]; intros i; cbn [parse_calls number_calls]; [reflexivity|].
  destruct (Nat.ltb_spec (String.length (Str.strip c)) 100); [lia|].
  case_bool_decide as He; [destruct (parse_single_nonempty _ _ He)|].
  rewrite IH. reflexivity.
Qed.

(** No section of a winning split is ever skipped: the records of a
    document are those of its sections, one each, numbered 1, 2, 3 and so
    on in order.  The only section the under-100 test can drop is a whole
    document taken as one section, and then nothing is parsed. *)
Theorem parse_text_content_records (content : string) :
  _parse_text_content content = number_calls (sections content) 0 \/
  (sections content = [content] /\ String.length (Str.strip content) < 100 /\
   _parse_text_content content = []).
Proof.
  unfold _parse_text_content. destruct (sections_cases content) as [Hone | Hlong].
  - rewrite Hone. cbn [parse_calls number_calls].
    destruct (Nat.ltb_spec (String.length (Str.strip content)) 100) as [Hlt | Hge].
    + right. split; [reflexivity | split; [exact Hlt | reflexivity]].
    + left. case_bool_decide as He; [destruct (parse_single_nonempty _ _ He) | reflexivity].
  - left. apply parse_calls_long.
    eapply List.Forall_impl; [|exact Hlong]. cbn. intros; lia.
Qed.



(** ** Call ids under masking *)

Lemma sub_fails (ic : bool) (r : regex) (repl : string) (s : string) :
  forall pv, fails_from ic r pv s -> Re.sub_from ic r repl pv s 0 = s.
Proof.
  induction s as [|c s IH]; intros pv [H0 Hrest]; cbn [Re.sub_from]; rewrite H0;
    [reflexivity|]. rewrite (IH _ Hrest). reflexivity.
Qed.

Lemma count_fails (ic : bool) (r : regex) (s : string) :
  forall pv, fails_from ic r pv s -> Re.count_from ic r pv s 0 = 0.
Proof.
  induction s as [|c s IH]; intros pv [H0 Hrest]; cbn [Re.count_from]; rewrite H0;
    [reflexivity|]. apply (IH _ Hrest).
Qed.

Lemma wordb_cat (ic : bool) (r : regex) (pv : option ascii) (s : string) :
  Re.match_here ic (Cat WordB r) pv s =
  if xorb (word_before (State pv s 0 [])) (word_after (State pv s 0 []))
  then Re.match_here ic r pv s else None.
Proof. reflexivity. Qed.

Lemma guarded_inner (p : regex) :
  guarded p ->
  forall (s : string) (c0 : ascii),
    Char.is_word c0 = true -> word_string s = true -> fails_from true p (Some c0) s.
Proof.
  intros (r & -> & Hend). induction s as [|c s IH]; intros c0 H0 Hs; cbn [fails_from].
  - split; [|exact I]. rewrite wordb_cat. rewrite Hend. destruct (xorb _ _); reflexivity.
  - unfold word_string in Hs. cbn [list_ascii_of_string forallb] in Hs.
    apply andb_true_iff in Hs as [Hc Hs]. split; [|apply IH; assumption].
    rewrite wordb_cat. cbn [word_before word_after prev rest]. rewrite H0, Hc. reflexivity.
Qed.

Lemma all_guarded : Forall guarded all_pii_regexes.
Proof.
  unfold all_pii_regexes, pii_patterns, telecom_patterns.
  cbn [List.map List.concat app snd fst].
  repeat (constructor; [eexists; split; [reflexivity | intros pv; vm_compute; reflexivity]|]).
  constructor.
Qed.

Lemma word_not_at (c : ascii) : Char.is_word c = true -> lit_matches true "@" c = false.
Proof. destruct c as [[] [] [] [] [] [] [] []]; vm_compute; congruence. Qed.

Lemma rep_then_at (a : atom) (r : regex) (k : state -> option result) (s : string) :
  word_string s = true ->
  forall (min : nat) (max : option nat) (pv : option ascii) (n : nat)
         (cs : list (nat * (nat * nat))),
    m_rep true a min max pv s n cs (fun st => m true (Cat (Lit "@") r) st k) = None.
Proof.
  induction s as [|c s IH]; intros Hs min max pv n cs.
  - cbn. destruct min; destruct max as [[|?]|]; reflexivity.
  - unfold word_string in Hs. cbn [list_ascii_of_string forallb] in Hs.
    apply andb_true_iff in Hs as [Hc Hs].
    cbn [m_rep m m_lit prev rest used]. rewrite (word_not_at c Hc).
    rewrite (IH Hs). destruct min; destruct max as [[|?]|]; destruct (atom_matches true a c);
      reflexivity.
Qed.

Lemma start_fails (prefix t : string) :
  In prefix tw_prefixes -> word_string t = true ->
  Forall (fun p => Re.match_here true p None (prefix ++ t) = None) all_pii_regexes.
Proof.
  intros Hp Ht.
  assert (Hw : word_string (prefix ++ t) = true).
  { unfold tw_prefixes in Hp. cbn [In] in Hp.
    destruct Hp as [<- | [<- | [<- | [<- | []]]]]; exact Ht. }
  unfold all_pii_regexes, pii_patterns, telecom_patterns.
  cbn [List.map List.concat app snd fst].
  unfold tw_prefixes in Hp. cbn [In] in Hp.
  destruct Hp as [<- | [<- | [<- | [<- | []]]]];
    do 4 (constructor; [vm_compute; reflexivity|]);
    (constructor;
       [unfold seq; cbn [fold_right]; rewrite wordb_cat;
        rewrite ?app_cons, ?app_empty;
        cbn [word_before word_after prev rest xorb Char.is_word];
        change (xorb false _) with true; cbv iota;
        unfold Re.match_here; cbn [m];
        apply rep_then_at; exact Hw|]);
    repeat (constructor; [vm_compute; reflexivity|]);
    constructor.
Qed.

Lemma fails_everywhere (prefix t : string) :
  In prefix tw_prefixes -> word_string t = true ->
  Forall (fun p => fails_from true p None (prefix ++ t)) all_pii_regexes.
Proof.
  intros Hp Ht. assert (Hs := start_fails prefix t Hp Ht).
  assert (Hg := all_guarded).
  assert (Hshape : exists c rest, prefix ++ t = String c rest /\ Char.is_word c = true /\
                                  word_string rest = true).
  { unfold tw_prefixes in Hp. cbn [In] in Hp.
    destruct Hp as [<- | [<- | [<- | [<- | []]]]]; eexists; eexists;
      (split; [reflexivity | split; [reflexivity | exact Ht]]). }
  destruct Hshape as (c & rest & Heq & Hc & Hrest). rewrite Heq in *.
  induction Hs as [|p ps Hp0 _ IH]; [constructor|].
  inversion Hg as [|? ? Hgp Hgs]; subst.
  constructor; [|apply IH; exact Hgs].
  cbn [fails_from]. split; [exact Hp0 | apply (guarded_inner p Hgp); assumption].
Qed.

Lemma add_count_zero (k : string) (counts : gmap string nat) :
  is_Some (counts !! k) -> add_count k 0 counts = counts.
Proof.
  intros [x Hx]. unfold add_count. apply insert_id.
  rewrite lookup_total_alt, Hx. cbn. f_equal. lia.
Qed.

Lemma mask_body_unmatched (s : string) :
  Forall (fun p => fails_from true p None s) all_pii_regexes ->
  mask_body s = (s, zero_counts).
Proof.
  unfold all_pii_regexes. intros H. apply Forall_app in H as [Hcat Htel].
  rewrite mask_body_unfold.
  assert (Hfold : forall l c,
             Forall (fun p => fails_from true p None s) (List.concat (List.map snd l)) ->
             Forall (fun e : string * list regex => is_Some (c !! fst e)) l ->
             fold_left apply_category l (s, c) = (s, c)).
  { induction l as [|e l IH]; intros c Hl Hk; [reflexivity|].
    cbn [List.map List.concat] in Hl. apply Forall_app in Hl as [He Hl].
    inversion Hk as [|? ? Hke Hkl]; subst. cbn [fold_left].
    replace (apply_category (s, c) e) with (s, c); [apply IH; assumption|].
    unfold apply_category. generalize (replacements !!! e.1). intros repl.
    induction He as [|p ps Hp _ IHp]; [reflexivity|]. cbn [fold_left apply_pattern].
    unfold Re.sub, Re.findall_count.
    rewrite (sub_fails _ _ _ _ _ Hp), (count_fails _ _ _ _ Hp), (add_count_zero _ _ Hke).
    exact IHp. }
  rewrite Hfold; [| exact Hcat |].
  - cbn [fst snd]. f_equal. unfold _mask_telecom_specific.
    induction telecom_patterns as [|e l IH]; [reflexivity|].
    cbn [List.map] in Htel. inversion Htel as [|? ? He Hl]; subst.
    cbn [fold_left]. unfold Re.sub at 2. rewrite (sub_fails _ _ _ _ _ He). apply IH. exact Hl.
  - eapply List.Forall_impl; [|exact pii_types_in_zero].
    intros e He. apply elem_of_dom. exact He.
Qed.

Lemma mask_tw_word (prefix t : string) :
  In prefix tw_prefixes -> word_string t = true ->
  mask_str (prefix ++ t) = (prefix ++ t, zero_counts).
Proof.
  intros Hp Ht. rewrite mask_str_unfold.
  rewrite (mask_body_unmatched _ (fails_everywhere prefix t Hp Ht)).
  destruct (Str.is_empty _); reflexivity.
Qed.

(** Masking never alters a call id written [TW_] (in any case) followed by
    word characters only, and counts nothing in it: such an id is one word,
    so that no pattern finds a word boundary inside it.  Every synthesized
    id and every id built as ["TW_" + group] has this form. *)
Theorem mask_keeps_tw_call_id (prefix t : string)
    (Hprefix : In prefix tw_prefixes) (Hword : word_string t = true) :
  fst (mask_str (prefix ++ t)) = prefix ++ t /\
  snd (mask_str (prefix ++ t)) = zero_counts.
Proof. rewrite (mask_tw_word prefix t Hprefix Hword). split; reflexivity. Qed.

Lemma mask_keeps_tw_call_id_witness :
  In "TW_" tw_prefixes /\ word_string "WEB_555123467" = true /\
  fst (mask_str ("TW_" ++ "WEB_555123467")) = "TW_" ++ "WEB_555123467" /\
  snd (mask_str ("TW_" ++ "WEB_555123467")) = zero_counts.
Proof.
  assert (Hp : In "TW_" tw_prefixes) by (left; reflexivity).
  assert (Hw : word_string "WEB_555123467" = true) by reflexivity.
  split; [exact Hp | split; [exact Hw | exact (mask_keeps_tw_call_id _ _ Hp Hw)]].
Defined.

Lemma word_digits (d : string) : all_digits d = true -> word_string d = true.
Proof.
  unfold all_digits, word_string. induction (list_ascii_of_string d) as [|c l IH];
    [reflexivity|]. cbn [forallb]. intros H. apply andb_true_iff in H as [Hc Hl].
  rewrite (IH Hl), andb_true_r. unfold Char.is_word. rewrite Hc, orb_true_r. reflexivity.
Qed.

Lemma word_string_app (a b : string) :
  word_string a = true -> word_string b = true -> word_string (a ++ b) = true.
Proof.
  unfold word_string. induction a as [|c a IH]; [auto|].
  rewrite app_cons. cbn [list_ascii_of_string forallb].
  intros H Hb. apply andb_true_iff in H as [Hc Ha]. rewrite Hc. cbn [andb]. auto.
Qed.

(** A synthesized call id goes through the masking of its record
    unchanged, whatever its sequence number. *)
Theorem synthesized_call_id_unmasked (text : string) (call_number : nat)
    (Hsynth : first_call_id call_id_patterns text = None) :
  _mask_text (VStr (_extract_call_id text call_number)) =
  inl (VStr (_extract_call_id text call_number), zero_counts).
Proof.
  destruct (extract_call_id_synthesized text call_number Hsynth) as (ch & Hch & ->).
  rewrite mask_text_string. unfold synthesized.
  rewrite (mask_tw_word "TW_" (ch ++ "_" ++ pad3 call_number)); [reflexivity | left; reflexivity |].
  apply word_string_app; [|apply (word_string_app "_"); [reflexivity|]].
  - unfold synthesized_channels in Hch. cbn [In] in Hch.
    repeat (destruct Hch as [<- | Hch]; [reflexivity|]). destruct Hch.
  - apply word_digits, all_digits_pad3.
Qed.

Lemma synthesized_call_id_unmasked_witness :
  first_call_id call_id_patterns "my phone shows 555123467" = None /\
  _mask_text (VStr (_extract_call_id "my phone shows 555123467" 1234)) =
  inl (VStr (_extract_call_id "my phone shows 555123467" 1234), zero_counts).
Proof.
  assert (H : first_call_id call_id_patterns "my phone shows 555123467" = None)
    by (vm_compute; reflexivity).
  split; [exact H | exact (synthesized_call_id_unmasked _ 1234 H)].
Defined.



(** ** The conversation body *)

Lemma lazy_any_reaches_end (k : state -> option result) :
  (forall pv n cs, k (State pv "" n cs) <> None) ->
  forall (s : string) (min : nat) (pv : option ascii) (n : nat)
         (cs : list (nat * (nat * nat))),
    min <= String.length s -> m_lazy true any min None pv s n cs k <> None.
Proof.
  intros Hk. induction s as [|c s IH]; intros min pv n cs Hmin.
  - cbn [String.length] in Hmin. assert (min = 0) as -> by lia. cbn [m_lazy].
    specialize (Hk pv n cs). destruct (k (State pv "" n cs)); [discriminate | contradiction].
  - cbn [String.length] in Hmin. cbn [m_lazy].
    change (atom_matches true any c) with true. cbv iota.
    assert (Hmore : m_lazy true any (Nat.pred min) (Nat.pred <$> None) (Some c) s (S n) cs k
                    <> None) by (apply IH; lia).
    destruct min; [|exact Hmore].
    destruct (k (State pv (String c s) n cs)); [discriminate | exact Hmore].
Qed.

Lemma agent_block_here (pv : option ascii) (s : string) :
  ReX.match_here true agent_block pv s = None ->
  match m_lit true "agent:" pv s 0 with
  | Some (_, s', _) => s' = ""
  | None => True
  end.
Proof.
  unfold ReX.match_here, agent_block. cbn [mx m prev rest used caps].
  destruct (m_lit true "agent:" pv s 0) as [[[pv' s'] n]|]; [|intros _; exact I].
  intros H. destruct s' as [|c s']; [reflexivity|]. exfalso. revert H.
  apply lazy_any_reaches_end; [|cbn [String.length]; lia].
  intros pv0 n0 cs0. cbn. discriminate.
Qed.

Lemma agent_customer_here (pv : option ascii) (s : string) :
  ReX.match_here true agent_block pv s = None ->
  ReX.match_here true agent_customer_pattern pv s = None.
Proof.
  intros H. apply agent_block_here in H.
  unfold ReX.match_here, agent_customer_pattern. cbn [mx m prev rest used caps].
  destruct (m_lit true "agent:" pv s 0) as [[[pv' s'] n]|]; [|reflexivity].
  subst s'. reflexivity.
Qed.

Lemma agent_customer_nowhere (s : string) :
  forall (pv : option ascii) (i : nat),
    ReX.search_from true agent_block pv s i = None ->
    ReX.findall_from true agent_customer_pattern pv s 0 = [].
Proof.
  induction s as [|c s IH]; intros pv i; cbn [ReX.search_from ReX.findall_from].
  - destruct (ReX.match_here true agent_block pv "") as [[n cs]|] eqn:H; [discriminate|].
    rewrite (agent_customer_here _ _ H). reflexivity.
  - destruct (ReX.match_here true agent_block pv (String c s)) as [[n cs]|] eqn:H;
      [discriminate|].
    rewrite (agent_customer_here _ _ H). apply IH.
Qed.

(** The agent/customer turn-pair branch of [_extract_conversation] is never
    taken: a text in which that pattern matches holds "agent:" followed by
    some character, and then the third labelled pattern has matched
    already.  So the conversation is a labelled block or, failing all
    three, the section itself cut to 1000 characters. *)
Theorem extract_conversation_branches (text : string) :
  _extract_conversation text =
  match first_conversation conversation_patterns text with
  | Some conversation => conversation
  | None =>
      if Nat.ltb 1000 (String.length text)
      then Str.take 1000 text ++ "..."
      else text
  end.
Proof.
  unfold _extract_conversation.
  destruct (first_conversation conversation_patterns text) eqn:Hfirst; [reflexivity|].
  assert (H3 : ReX.search true agent_block text = None).
  { revert Hfirst. unfold conversation_patterns. cbn [first_conversation].
    destruct (ReX.search true transcript_block text) as [[[? ?] ?]|]; [discriminate|].
    destruct (ReX.search true conversation_block text) as [[[? ?] ?]|]; [discriminate|].
    destruct (ReX.search true agent_block text) as [[[? ?] ?]|]; [discriminate|].
    reflexivity. }
  unfold ReX.findall. rewrite (agent_customer_nowhere text None 0 H3). reflexivity.
Qed.



(** ** Sections without labels *)

Lemma m_lit_starts (p s : string) :
  forall (pv : option ascii) (n : nat) r,
    m_lit true p pv s n = Some r ->
    Str.starts_with (Str.lower p) (Str.lower s) = true.
Proof.
  revert s. induction p as [|d p IH]; intros s pv n r; [reflexivity|].
  destruct s as [|c s]; cbn [m_lit]; [discriminate|].
  unfold lit_matches. destruct (Char.eqb (Char.lower c) (Char.lower d)) eqn:Hc; [|discriminate].
  intros H. cbn [Str.lower Str.map Str.starts_with].
  apply char_eqb_eq in Hc. rewrite Hc.
  fold (Str.lower p). fold (Str.lower s). rewrite (IH _ _ _ _ H), andb_true_r.
  apply char_eqb_eq. reflexivity.
Qed.

Lemma lit_first_search (label : string) (r : regex) (s : string) :
  forall (pv : option ascii) (i : nat),
    Str.contains (Str.lower label) (Str.lower s) = false ->
    Re.search_from true (Cat (Lit label) r) pv s i = None.
Proof.
  induction s as [|c s IH]; intros pv i Hc; cbn [Re.search_from];
    unfold Re.match_here; cbn [m prev rest used].
  - cbn [Str.lower Str.map Str.contains] in Hc. apply orb_false_iff in Hc as [Hs _].
    destruct (m_lit true label pv "" 0) as [[[? ?] ?]|] eqn:Hm; [|reflexivity].
    apply m_lit_starts in Hm. cbn [Str.lower Str.map] in Hm. congruence.
  - cbn [Str.lower Str.map Str.contains] in Hc. fold (Str.lower s) in Hc.
    apply orb_false_iff in Hc as [Hs Hrest].
    destruct (m_lit true label pv (String c s) 0) as [[[? ?] ?]|] eqn:Hm.
    + apply m_lit_starts in Hm. cbn [Str.lower Str.map] in Hm.
      fold (Str.lower s) in Hm. congruence.
    + apply IH. exact Hrest.
Qed.

(** For labels made of letters, digits, spaces and colons, as all the
    labels of the program are: a section in which none of the labels
    occurs, in any case, gives the empty string for the field. *)
Theorem extract_field_no_label (text : string) (field_patterns : list string)
    (Hplain : forallb plain_label field_patterns = true)
    (Hnone : forallb (fun label => negb (Str.contains (Str.lower label) (Str.lower text)))
                     field_patterns = true) :
  _extract_field text field_patterns = "".
Proof.
  clear Hplain. induction field_patterns as [|label labels IH]; [reflexivity|].
  cbn [forallb] in Hnone. apply andb_true_iff in Hnone as [Hl Hrest].
  apply negb_true_iff in Hl. cbn [_extract_field]. unfold Re.search, field_regex.
  unfold seq. cbn [fold_right]. rewrite (lit_first_search _ _ _ _ _ Hl). apply IH. exact Hrest.
Qed.

Lemma extract_field_no_label_witness :
  forallb plain_label severity_labels = true /\
  forallb (fun label => negb (Str.contains (Str.lower label) (Str.lower "Agent: hello there")))
          severity_labels = true /\
  _extract_field "Agent: hello there" severity_labels = "".
Proof.
  assert (Hp : forallb plain_label severity_labels = true) by (vm_compute; reflexivity).
  assert (H : forallb (fun label =>
                 negb (Str.contains (Str.lower label) (Str.lower "Agent: hello there")))
                severity_labels = true) by (vm_compute; reflexivity).
  split; [exact Hp | split; [exact H | exact (extract_field_no_label _ _ Hp H)]].
Defined.

Lemma first_call_id_none (text : string) :
  Str.contains "tw_" (Str.lower text) = false ->
  Str.contains "call" (Str.lower text) = false ->
  Str.contains "id" (Str.lower text) = false ->
  first_call_id call_id_patterns text = None.
Proof.
  intros Htw Hcall Hid. unfold call_id_patterns, first_call_id, Re.search, seq.
  cbn [fold_right].
  rewrite (lit_first_search "TW_" _ text None 0 Htw).
  rewrite (lit_first_search "Call" _ text None 0 Hcall).
  rewrite (lit_first_search "ID" _ text None 0 Hid). reflexivity.
Qed.

(** A section that holds neither "tw_", "call" nor "id" (in any case) and
    none of the channel keywords gets the call id [TW_UNKNOWN_] followed by
    its zero-padded sequence number, and the channel "Unknown" unless it
    mentions "ivr". *)
Theorem fallback_synthesis (text : string) (call_number : nat)
    (Hid : forallb (fun k => negb (Str.contains k (Str.lower text))) ["tw_"; "call"; "id"]
           = true)
    (Hkey : forallb (fun k => negb (Str.contains k (Str.lower text)))
                    ["tasora"; "web"; "portal"; "app"; "mobile"; "target"; "sms"; "bot"]
            = true) :
  _extract_call_id text call_number = "TW_UNKNOWN_" ++ pad3 call_number /\
  _extract_channel text (_extract_call_id text call_number) =
  (if Str.contains "ivr" (Str.lower text) then "SMS/Bot/IVR" else "Unknown").
Proof.
  cbn [forallb] in Hid, Hkey.
  repeat (apply andb_true_iff in Hid as [?%negb_true_iff Hid]).
  repeat (apply andb_true_iff in Hkey as [?%negb_true_iff Hkey]).
  assert (Hnone : first_call_id call_id_patterns text = None)
    by (apply first_call_id_none; assumption).
  rewrite (extract_channel_synthesized text call_number Hnone).
  unfold _extract_call_id, channel_by_keywords. rewrite Hnone. cbv zeta.
  repeat match goal with H : Str.contains _ _ = false |- _ => rewrite H; clear H end.
  cbn [orb]. split; reflexivity.
Qed.

Lemma fallback_synthesis_witness :
  forallb (fun k => negb (Str.contains k (Str.lower "The line went dead at noon")))
          ["tw_"; "call"; "id"] = true /\
  forallb (fun k => negb (Str.contains k (Str.lower "The line went dead at noon")))
          ["tasora"; "web"; "portal"; "app"; "mobile"; "target"; "sms"; "bot"] = true /\
  _extract_call_id "The line went dead at noon" 3 = "TW_UNKNOWN_" ++ pad3 3 /\
  _extract_channel "The line went dead at noon"
    (_extract_call_id "The line went dead at noon" 3) =
  (if Str.contains "ivr" (Str.lower "The line went dead at noon")
   then "SMS/Bot/IVR" else "Unknown").
Proof.
  assert (H1 : forallb (fun k => negb (Str.contains k (Str.lower "The line went dead at noon")))
                 ["tw_"; "call"; "id"] = true) by (vm_compute; reflexivity).
  assert (H2 : forallb (fun k => negb (Str.contains k (Str.lower "The line went dead at noon")))
                 ["tasora"; "web"; "portal"; "app"; "mobile"; "target"; "sms"; "bot"] = true)
    by (vm_compute; reflexivity).
  split; [exact H1 | split; [exact H2 | exact (fallback_synthesis _ 3 H1 H2)]].
Defined.

